(** * Host orchestrator of the Intune deployment shell

    A shallow embedding of [electron/main.js]: the port allocator
    ([findAvailablePort]), the credential verifier ([verifyCredentials]),
    the worker supervisor ([startPythonApi] and the handlers it registers)
    and the IPC commands [login] and [logout], together with the startup
    hook [app.whenReady].

    Asynchronous code is modelled by the events it reacts to: a child
    process is the list of [data], [close] and timer events delivered to the
    handlers the source registers on it, and a handler is a function on the
    variables it closes over.  The persisted [electron-store] is a finite
    map from keys to values. *)

From Stdlib Require Import ZArith List String Ascii Bool Lia.
From stdpp Require Import base gmap strings list pretty.

(** ** JavaScript string primitives used by the source *)

Module Js.

(** [s.startsWith(p)] *)
Definition startsWith (s p : string) : bool := String.prefix p s.

(** [s.includes(needle)] *)
Fixpoint includes (s needle : string) : bool :=
  if String.prefix needle s then true
  else match s with
       | EmptyString => false
       | String _ rest => includes rest needle
       end.

(** [xs.join(sep)] on an array of strings *)
Fixpoint join (sep : string) (xs : list string) : string :=
  match xs with
  | [] => ""
  | [x] => x
  | x :: rest => x +:+ sep +:+ join sep rest
  end.

(** Truthiness of a property that is either absent or a string. *)
Definition truthy (v : option string) : bool :=
  match v with
  | Some s => negb (String.eqb s "")
  | None => false
  end.

(** An exit code inside a template literal: a number, or [null] when the
    process was ended by a signal. *)
Definition show_code (code : option Z) : string :=
  match code with
  | Some n => pretty n
  | None => "null"
  end.

(** [code === 0] *)
Definition is_zero (code : option Z) : bool :=
  match code with
  | Some n => (n =? 0)%Z
  | None => false
  end.

(** A call either returns or throws an [Error] with a message. *)
Inductive completion (A : Type) :=
| Return (a : A)
| Throw (message : string).
Arguments Return {A} a.
Arguments Throw {A} message.

End Js.

(** ** What the host shares between its parts *)

Module Host.

(** The object the login form sends; a field is a string or absent. *)
Record credentials := {
  clientId : option string;
  clientSecret : option string;
  tenantId : option string
}.

(** The candidate locations of [api.py], in the order the source tries
    them, and [fs.existsSync]. *)
Record filesystem := {
  possibleApiPaths : list string;
  existsSync : string → bool
}.

(** What [child_process.spawn] does before it returns. The call throws
    when it is handed an option it cannot pass on, as Node does for an
    environment value that holds a NUL character; [spawnThrows c] is then
    the message of the error, for a child whose environment is made from
    [c], and [None] says that the call returns a child. Both calls of the
    source spawn the same program from the same directory, so the
    credentials are all that varies between them. A program that cannot be
    started is reported later, by an [error] event, and not by a throw. *)
Record runtime := { spawnThrows : credentials → option string }.

(** What reaches the [login] handler as [credentials]: the object of the
    login form, or no object at all. (A number, a string or a boolean
    reads like an object whose three fields are absent.) *)
Inductive argument :=
| Null
| Undefined
| Object (c : credentials).

(** A credentials object is passed as it is. *)
Coercion Object : credentials >-> argument.

(** The message of the [TypeError] thrown by [credentials.clientId] when
    [credentials] is no object. *)
Definition cannot_read_clientId (arg : argument) : string :=
  match arg with
  | Undefined => "Cannot read properties of undefined (reading 'clientId')"
  | _ => "Cannot read properties of null (reading 'clientId')"
  end.

(** Messages on the channels to the renderer. *)
Inductive ui_event :=
| ApiReady (port : Z)
| ApiError (message : string)
| ShowLogin.

(** [mainWindow.webContents.send] behind its [if (mainWindow)] guard. *)
Definition send (mainWindow : bool) (e : ui_event) : list ui_event :=
  if mainWindow then [e] else [].

(** [findApiPath]: the first candidate that exists.  When there is none
    the renderer is told and the function throws. *)
Definition findApiPath (mainWindow : bool) (fs : filesystem)
  : list ui_event * Js.completion string :=
  match List.find (existsSync fs) (possibleApiPaths fs) with
  | Some testPath => ([], Js.Return testPath)
  | None =>
      (send mainWindow
         (ApiError "Could not locate the API module. Please check your installation."),
       Js.Throw "Could not locate API api.py file")
  end.

End Host.

(** ** Port allocator: [findAvailablePort] *)

Module PortAllocator.

(** What one call logged and returned.  [warnings] holds the ranges
    reported by [console.warn] as exhausted, oldest first; [found] is the
    returned port, or [None] while the search is still running. *)
Record search := { warnings : list (Z * Z); found : option Z }.

Section Probe.

(** Outcome of the transient bind on [127.0.0.1]: [true] when the listener
    came up, [false] on [error] or after the 500 ms wait. *)
Variable bindable : Z → bool.

(** The [for (port = startPort; port <= endPort; port++)] loop, with [n]
    iterations left. *)
Fixpoint scan (n : nat) (port : Z) (failedPorts : gset Z) : option Z :=
  match n with
  | O => None
  | S n' =>
      if decide (port ∈ failedPorts) then scan n' (port + 1)%Z failedPorts
      else if bindable port then Some port
      else scan n' (port + 1)%Z ({[port]} ∪ failedPorts)
  end.

(** Each unit of fuel pays for one call of the function. *)
Fixpoint findAvailablePort (fuel : nat) (startPort endPort : Z) : search :=
  match fuel with
  | O => {| warnings := []; found := None |}
  | S fuel' =>
      match scan (Z.to_nat (endPort - startPort + 1)) startPort ∅ with
      | Some port => {| warnings := []; found := Some port |}
      | None =>
          let r := findAvailablePort fuel' (endPort + 1)%Z (endPort + 100)%Z in
          {| warnings := (startPort, endPort) :: warnings r;
             found := found r |}
      end
  end.

(** [findAvailablePort(startPort)] with the default [endPort]. *)
Definition findAvailablePort_default (fuel : nat) (startPort : Z) : search :=
  findAvailablePort fuel startPort (startPort + 100)%Z.

End Probe.

End PortAllocator.

(** ** Credential verifier: [verifyCredentials] *)

Module Verifier.

Import Js Host.

(** The promise the function returns. [resolve] and [reject] only act on
    a pending promise. *)
Inductive promise :=
| Pending
| Resolved (valid : bool)
| Rejected (message : string).

(** The variables the handlers close over, the timer, and what the
    handlers did to the outside: calls of [verifyProcess.kill()] and
    messages to the renderer. *)
Record vstate := {
  spawned : option (string * credentials);
  authOutput : string;
  authError : string;
  authSuccess : bool;
  authFailed : bool;
  verifyTimeout : option Z;
  kills : nat;
  outcome : promise;
  sent : list ui_event
}.

Definition append_authOutput (output : string) (v : vstate) : vstate :=
  {| spawned := spawned v; authOutput := authOutput v +:+ output;
     authError := authError v; authSuccess := authSuccess v;
     authFailed := authFailed v; verifyTimeout := verifyTimeout v;
     kills := kills v; outcome := outcome v; sent := sent v |}.

Definition append_authError (output : string) (v : vstate) : vstate :=
  {| spawned := spawned v; authOutput := authOutput v;
     authError := authError v +:+ output; authSuccess := authSuccess v;
     authFailed := authFailed v; verifyTimeout := verifyTimeout v;
     kills := kills v; outcome := outcome v; sent := sent v |}.

Definition set_authSuccess (b : bool) (v : vstate) : vstate :=
  {| spawned := spawned v; authOutput := authOutput v;
     authError := authError v; authSuccess := b;
     authFailed := authFailed v; verifyTimeout := verifyTimeout v;
     kills := kills v; outcome := outcome v; sent := sent v |}.

Definition set_authFailed (b : bool) (v : vstate) : vstate :=
  {| spawned := spawned v; authOutput := authOutput v;
     authError := authError v; authSuccess := authSuccess v;
     authFailed := b; verifyTimeout := verifyTimeout v;
     kills := kills v; outcome := outcome v; sent := sent v |}.

(** [clearTimeout(verifyTimeout)], and also the timer having fired. *)
Definition clearTimeout (v : vstate) : vstate :=
  {| spawned := spawned v; authOutput := authOutput v;
     authError := authError v; authSuccess := authSuccess v;
     authFailed := authFailed v; verifyTimeout := None;
     kills := kills v; outcome := outcome v; sent := sent v |}.

(** [verifyProcess.kill()] *)
Definition kill (v : vstate) : vstate :=
  {| spawned := spawned v; authOutput := authOutput v;
     authError := authError v; authSuccess := authSuccess v;
     authFailed := authFailed v; verifyTimeout := verifyTimeout v;
     kills := S (kills v); outcome := outcome v; sent := sent v |}.

Definition settle (b : bool) (p : promise) : promise :=
  match p with
  | Pending => Resolved b
  | _ => p
  end.

(** [resolve(b)] *)
Definition resolve (b : bool) (v : vstate) : vstate :=
  {| spawned := spawned v; authOutput := authOutput v;
     authError := authError v; authSuccess := authSuccess v;
     authFailed := authFailed v; verifyTimeout := verifyTimeout v;
     kills := kills v; outcome := settle b (outcome v); sent := sent v |}.

(** [if (mainWindow) mainWindow.webContents.send('api-error', message)] *)
Definition api_error (mainWindow : bool) (message : string) (v : vstate) : vstate :=
  {| spawned := spawned v; authOutput := authOutput v;
     authError := authError v; authSuccess := authSuccess v;
     authFailed := authFailed v; verifyTimeout := verifyTimeout v;
     kills := kills v; outcome := outcome v;
     sent := sent v ++ send mainWindow (ApiError message) |}.

Definition msg_auth_failed : string :=
  "Authentication failed: Invalid client ID, client secret, or tenant ID.".
Definition msg_interrupted : string :=
  "Credential verification interrupted. Please try again.".
Definition msg_verification_failed : string :=
  "Credential verification failed. Please check your credentials and try again.".
Definition msg_timed_out : string :=
  "Credential verification timed out. Please check your network connection and try again.".

(** [verifyProcess.stdout.on('data', ...)] *)
Definition on_stdout (output : string) (v : vstate) : vstate :=
  let v := append_authOutput output v in
  if includes output "Authentication successful"
     || includes output "Token acquired successfully"
  then resolve true (kill (clearTimeout (set_authSuccess true v)))
  else v.

(** [verifyProcess.stderr.on('data', ...)] *)
Definition on_stderr (mainWindow : bool) (output : string) (v : vstate) : vstate :=
  let v := append_authError output v in
  if includes output "INFO:" && includes output "access token"
  then resolve true (kill (clearTimeout (set_authSuccess true v)))
  else if includes output "Authentication failed"
          || includes output "Invalid client"
          || includes output "AADSTS"
  then resolve false
         (api_error mainWindow msg_auth_failed
            (kill (clearTimeout (set_authSuccess false (set_authFailed true v)))))
  else v.

(** The success indicators looked for in the buffers when the process was
    killed ([code === null]). *)
Definition killed_success_indicators (v : vstate) : bool :=
  (authSuccess v
   || includes (authOutput v) "Authentication successful"
   || includes (authOutput v) "Token acquired successfully")
  || (includes (authOutput v) "Authentication successful"
      || includes (authError v) "access token"
      || (includes (authOutput v) "Token" && includes (authOutput v) "success")).

(** The success indicators looked for after a nonzero exit code. *)
Definition exit_success_indicators (v : vstate) : bool :=
  includes (authOutput v) "Authentication successful"
  || includes (authError v) "access token"
  || (includes (authOutput v) "Token" && includes (authOutput v) "success").

(** The success indicators looked for when the timer fires. *)
Definition timeout_success_indicators (v : vstate) : bool :=
  authSuccess v
  || includes (authOutput v) "Authentication successful"
  || includes (authOutput v) "Token acquired successfully"
  || includes (authError v) "access token".

(** [verifyProcess.on('close', ...)] *)
Definition on_close (mainWindow : bool) (code : option Z) (v : vstate) : vstate :=
  if authSuccess v then resolve true v
  else if authFailed v then resolve false v
  else match code with
       | Some 0%Z => resolve true v
       | None =>
           if killed_success_indicators v then resolve true v
           else resolve false (api_error mainWindow msg_interrupted v)
       | Some _ =>
           if exit_success_indicators v then resolve true v
           else
             resolve false
               (api_error mainWindow
                  (if includes (authOutput v) "Authentication failed"
                      || includes (authError v) "Authentication failed"
                   then msg_auth_failed
                   else msg_verification_failed)
                  v)
       end.

(** The callback of [setTimeout(..., 15000)]. It runs at most once, and
    not at all after [clearTimeout]. *)
Definition on_timeout (mainWindow : bool) (v : vstate) : vstate :=
  match verifyTimeout v with
  | None => v
  | Some _ =>
      let v := clearTimeout v in
      if timeout_success_indicators v then resolve true v
      else resolve false (api_error mainWindow msg_timed_out (kill v))
  end.

(** What can happen to the verification process once it is spawned. A
    process that could not be started at all emits [error], for which the
    source registers no handler; that case is left out. *)
Inductive event :=
| Stdout (output : string)
| Stderr (output : string)
| Close (code : option Z)
| Timeout.

Definition step (mainWindow : bool) (v : vstate) (e : event) : vstate :=
  match e with
  | Stdout output => on_stdout output v
  | Stderr output => on_stderr mainWindow output v
  | Close code => on_close mainWindow code v
  | Timeout => on_timeout mainWindow v
  end.

Definition run (mainWindow : bool) (trace : list event) (v : vstate) : vstate :=
  fold_left (step mainWindow) trace v.

(** The [catch] of the promise executor: [reject(error)]. Nothing was
    spawned and no timer is armed; [msgs] is what the renderer was sent
    before the throw. *)
Definition rejected (error : string) (msgs : list ui_event) : vstate :=
  {| spawned := None; authOutput := ""; authError := "";
     authSuccess := false; authFailed := false; verifyTimeout := None;
     kills := 0; outcome := Rejected error; sent := msgs |}.

(** The body of the promise executor up to the end of its [try] block:
    [findApiPath] and [spawn] may throw, and either throw is caught and
    rejects the promise. *)
Definition start (mainWindow : bool) (fs : filesystem) (node : runtime)
    (c : credentials) : vstate :=
  match findApiPath mainWindow fs with
  | (msgs, Throw error) => rejected error msgs
  | (msgs, Return apiPath) =>
      match spawnThrows node c with
      | Some error => rejected error msgs
      | None =>
          {| spawned := Some (apiPath, c); authOutput := ""; authError := "";
             authSuccess := false; authFailed := false;
             verifyTimeout := Some 15000%Z;
             kills := 0; outcome := Pending; sent := msgs |}
      end
  end.

(** [verifyCredentials(credentials)] observed after the events of [trace]
    have been delivered to the verification process. When no process was
    spawned there is nothing to deliver them to. *)
Definition verifyCredentials (mainWindow : bool) (fs : filesystem)
    (node : runtime) (c : credentials) (trace : list event) : vstate :=
  let v := start mainWindow fs node c in
  match spawned v with
  | Some _ => run mainWindow trace v
  | None => v
  end.

(** *** Vocabulary for statements about the verifier *)

(** A chunk in which its handler recognises success. *)
Definition success_marker (e : event) : bool :=
  match e with
  | Stdout output =>
      includes output "Authentication successful"
      || includes output "Token acquired successfully"
  | Stderr output => includes output "INFO:" && includes output "access token"
  | _ => false
  end.

(** A chunk in which the [stderr] handler recognises failure. *)
Definition failure_marker (output : string) : bool :=
  includes output "Authentication failed"
  || includes output "Invalid client"
  || includes output "AADSTS".

(** A chunk in which its handler recognises neither. *)
Definition quiet (e : event) : bool :=
  match e with
  | Stdout _ => negb (success_marker e)
  | Stderr output => negb (success_marker e) && negb (failure_marker output)
  | _ => false
  end.

(** All of [stdout], and all of [stderr], delivered so far. *)
Fixpoint stdout_of (history : list event) : string :=
  match history with
  | [] => ""
  | Stdout output :: rest => output +:+ stdout_of rest
  | _ :: rest => stdout_of rest
  end.

Fixpoint stderr_of (history : list event) : string :=
  match history with
  | [] => ""
  | Stderr output :: rest => output +:+ stderr_of rest
  | _ :: rest => stderr_of rest
  end.

(** The timer firing, or the process closing with a code other than 0. *)
Definition ambiguous_end (e : event) : bool :=
  match e with
  | Timeout => true
  | Close code => negb (is_zero code)
  | _ => false
  end.

(** The success phrases searched for in the two buffers at such an end. *)
Definition success_phrases (e : event) (out err : string) : bool :=
  match e with
  | Timeout =>
      includes out "Authentication successful"
      || includes out "Token acquired successfully"
      || includes err "access token"
  | Close None =>
      includes out "Authentication successful"
      || includes out "Token acquired successfully"
      || includes err "access token"
      || (includes out "Token" && includes out "success")
  | _ =>
      includes out "Authentication successful"
      || includes err "access token"
      || (includes out "Token" && includes out "success")
  end.

(** The error reported when none is found. *)
Definition failure_message (e : event) (out err : string) : string :=
  match e with
  | Timeout => msg_timed_out
  | Close None => msg_interrupted
  | _ =>
      if includes out "Authentication failed" || includes err "Authentication failed"
      then msg_auth_failed
      else msg_verification_failed
  end.

(** The promise is not rejected, and it is resolved once the timer is no
    longer armed. *)
Definition settled_when_disarmed (v : vstate) : Prop :=
  (∀ message, outcome v ≠ Rejected message)
  ∧ (verifyTimeout v = None → ∃ valid, outcome v = Resolved valid).

End Verifier.

(** ** Output classifier: the handlers [startPythonApi] registers *)

Module Worker.

Import Js Host.

(** The variables of one [startPythonApi] call that its handlers close
    over: the port, and the local [apiStarted] and [apiErrors]. *)
Record closure := {
  port : Z;
  apiStarted : bool;
  apiErrors : list string
}.

Definition started (w : closure) : closure :=
  {| port := port w; apiStarted := true; apiErrors := apiErrors w |}.

(** [apiErrors.push(line)] *)
Definition push (line : string) (w : closure) : closure :=
  {| port := port w; apiStarted := apiStarted w;
     apiErrors := apiErrors w ++ [line] |}.

(** The startup phrases of the server. *)
Definition ready_marker (output : string) : bool :=
  includes output "Uvicorn running"
  || includes output "Application startup complete".

(** [pythonProcess.stdout.on('data', ...)] *)
Definition on_stdout (mainWindow : bool) (output : string) (w : closure)
  : closure * list ui_event :=
  let '(w, ready) :=
    if includes output "Uvicorn running"
       || includes output "Application startup complete"
    then (started w, send mainWindow (ApiReady (port w)))
    else (w, []) in
  if includes output "Authentication failed" || includes output "Invalid client"
  then (push "Authentication failed: Invalid credentials" w,
        ready ++ send mainWindow
          (ApiError "Authentication failed: Invalid client ID, client secret, or tenant ID."))
  else (w, ready).

(** [pythonProcess.stderr.on('data', ...)] *)
Definition on_stderr (mainWindow : bool) (output : string) (w : closure)
  : closure * list ui_event :=
  if startsWith output "INFO:" then
    if includes output "Application startup complete"
       || includes output "Uvicorn running"
    then (started w, send mainWindow (ApiReady (port w)))
    else (w, [])
  else if negb (includes output "WARNING:") then
    let w := push output w in
    if includes output "Error" || includes output "Exception"
       || includes output "Failed"
    then (w, send mainWindow (ApiError ("API Error: " +:+ output)))
    else (w, [])
  else (w, []).

(** The part of [pythonProcess.on('close', ...)] that talks to the
    renderer; the handler then resets the global [pythonProcess]. *)
Definition on_close (mainWindow : bool) (code : option Z) (w : closure)
  : list ui_event :=
  if negb (apiStarted w) && negb (is_zero code) then
    match apiErrors w with
    | _ :: _ =>
        send mainWindow
          (ApiError ("API failed to start: " +:+ join ", " (apiErrors w)))
    | [] =>
        send mainWindow
          (ApiError ("API process exited with code " +:+ show_code code))
    end
  else [].

(** What the worker's streams deliver before it closes. *)
Inductive chunk :=
| Stdout (output : string)
| Stderr (output : string).

Definition on_data (mainWindow : bool) (acc : closure * list ui_event) (c : chunk)
  : closure * list ui_event :=
  let '(w, evs) :=
    match c with
    | Stdout output => on_stdout mainWindow output acc.1
    | Stderr output => on_stderr mainWindow output acc.1
    end in
  (w, acc.2 ++ evs).

(** The closure and the renderer messages after a history of chunks,
    starting from the fresh closure of a worker spawned on [p]. *)
Definition after (mainWindow : bool) (p : Z) (history : list chunk)
  : closure * list ui_event :=
  fold_left (on_data mainWindow) history
    ({| port := p; apiStarted := false; apiErrors := [] |}, []).

(** *** Vocabulary for statements about the classifier *)

(** A chunk the handlers take as the server having started. *)
Definition announces_ready (c : chunk) : bool :=
  match c with
  | Stdout output => ready_marker output
  | Stderr output => startsWith output "INFO:" && ready_marker output
  end.

(** What a chunk adds to [apiErrors]. *)
Definition error_entries (c : chunk) : list string :=
  match c with
  | Stdout output =>
      if includes output "Authentication failed" || includes output "Invalid client"
      then ["Authentication failed: Invalid credentials"]
      else []
  | Stderr output =>
      if negb (startsWith output "INFO:") && negb (includes output "WARNING:")
      then [output]
      else []
  end.

(** The [stderr] chunks among them. *)
Definition stderr_error_lines (history : list chunk) : list string :=
  flat_map (fun c => match c with Stderr _ => error_entries c | _ => [] end)
    history.

End Worker.

(** ** Session orchestrator: module state, [startPythonApi], the IPC
    handlers and [app.whenReady] *)

Module Main.

Import Js Host.

(** Values kept in the persisted store. *)
Inductive value :=
| VBool (b : bool)
| VNum (n : Z)
| VCreds (c : credentials).

(** A worker process is [Running] from its spawn until [kill()] is called
    on it ([Killed]) or its [close] event has been delivered ([Closed]). *)
Inductive proc_status := Running | Killed | Closed.

Record process := {
  childEnv : credentials;
  closure : Worker.closure;
  status : proc_status
}.

(** The module-level variables and the store.  A worker is named by its
    position in [processes]; [pythonProcess] holds such a name or [null].
    [sent] is what the renderer was sent, oldest first. *)
Record state := {
  store : gmap string value;
  pythonProcess : option nat;
  processes : list process;
  mainWindow : bool;
  apiStarted : bool;
  apiPort : option Z;
  development : bool;
  nextProcess : bool;
  sent : list ui_event
}.

Definition set_store (m : gmap string value) (s : state) : state :=
  {| store := m; pythonProcess := pythonProcess s; processes := processes s;
     mainWindow := mainWindow s; apiStarted := apiStarted s;
     apiPort := apiPort s; development := development s;
     nextProcess := nextProcess s; sent := sent s |}.

Definition set_pythonProcess (h : option nat) (s : state) : state :=
  {| store := store s; pythonProcess := h; processes := processes s;
     mainWindow := mainWindow s; apiStarted := apiStarted s;
     apiPort := apiPort s; development := development s;
     nextProcess := nextProcess s; sent := sent s |}.

Definition set_processes (ps : list process) (s : state) : state :=
  {| store := store s; pythonProcess := pythonProcess s; processes := ps;
     mainWindow := mainWindow s; apiStarted := apiStarted s;
     apiPort := apiPort s; development := development s;
     nextProcess := nextProcess s; sent := sent s |}.

Definition set_mainWindow (b : bool) (s : state) : state :=
  {| store := store s; pythonProcess := pythonProcess s;
     processes := processes s; mainWindow := b; apiStarted := apiStarted s;
     apiPort := apiPort s; development := development s;
     nextProcess := nextProcess s; sent := sent s |}.

Definition set_apiStarted (b : bool) (s : state) : state :=
  {| store := store s; pythonProcess := pythonProcess s;
     processes := processes s; mainWindow := mainWindow s; apiStarted := b;
     apiPort := apiPort s; development := development s;
     nextProcess := nextProcess s; sent := sent s |}.

Definition set_apiPort (p : option Z) (s : state) : state :=
  {| store := store s; pythonProcess := pythonProcess s;
     processes := processes s; mainWindow := mainWindow s;
     apiStarted := apiStarted s; apiPort := p; development := development s;
     nextProcess := nextProcess s; sent := sent s |}.

Definition set_nextProcess (b : bool) (s : state) : state :=
  {| store := store s; pythonProcess := pythonProcess s;
     processes := processes s; mainWindow := mainWindow s;
     apiStarted := apiStarted s; apiPort := apiPort s;
     development := development s; nextProcess := b; sent := sent s |}.

(** Messages reach the renderer in the order they are sent. *)
Definition emit (evs : list ui_event) (s : state) : state :=
  {| store := store s; pythonProcess := pythonProcess s;
     processes := processes s; mainWindow := mainWindow s;
     apiStarted := apiStarted s; apiPort := apiPort s;
     development := development s; nextProcess := nextProcess s;
     sent := sent s ++ evs |}.

(** [store.set(key, v)] and [store.delete(key)] *)
Definition store_set (key : string) (v : value) (s : state) : state :=
  set_store (<[key := v]> (store s)) s.

Definition store_delete (key : string) (s : state) : state :=
  set_store (delete key (store s)) s.

(** [child.kill()] on the worker named [pid]. *)
Definition stop (p : process) : process :=
  {| childEnv := childEnv p; closure := closure p;
     status := match status p with Running => Killed | st => st end |}.

Definition kill (pid : nat) (s : state) : state :=
  set_processes (alter stop pid (processes s)) s.

(** A worker is live while it is [Running]. *)
Definition live (s : state) (pid : nat) : bool :=
  match processes s !! pid with
  | Some {| status := Running |} => true
  | _ => false
  end.

Definition live_workers (s : state) : list nat :=
  List.filter (live s) (seq 0 (length (processes s))).

(** [if (pythonProcess) { pythonProcess.kill(); pythonProcess = null; }] *)
Definition kill_existing (s : state) : state :=
  match pythonProcess s with
  | Some pid => set_pythonProcess None (kill pid s)
  | None => s
  end.

(** What [store.get('graphCredentials')] is used as: nothing when the
    value is absent or falsy, else an object read field by field. *)
Definition stored_credentials (s : state) : option credentials :=
  match store s !! "graphCredentials" with
  | Some (VCreds c) => Some c
  | Some (VBool true) =>
      Some {| clientId := None; clientSecret := None; tenantId := None |}
  | Some (VNum n) =>
      if (n =? 0)%Z then None
      else Some {| clientId := None; clientSecret := None; tenantId := None |}
  | Some (VBool false) | None => None
  end.

(** [spawn('python', ['-m', 'uvicorn', ...], { cwd, env })] followed by
    the registration of the handlers of module [Worker]. *)
Definition spawn (c : credentials) (p : Z) (s : state) : state :=
  set_pythonProcess (Some (length (processes s)))
    (set_processes
       (processes s ++
        [{| childEnv := c;
            closure := {| Worker.port := p; Worker.apiStarted := false;
                          Worker.apiErrors := [] |};
            status := Running |}])
       s).

(** The [catch] of [startPythonApi]: the renderer is told and the
    function returns [null]. *)
Definition start_failed (message : string) (s : state) : state * option nat :=
  (emit (send (mainWindow s) (ApiError ("Failed to start API: " +:+ message))) s,
   None).

(** [startPythonApi(port)]; the result is the state and the returned
    process, [None] for [null]. A throw of [findApiPath] or of [spawn]
    ends in the [catch]; the handle has been reset by then and stays
    [null]. *)
Definition startPythonApi (fs : filesystem) (node : runtime) (p : Z) (s : state)
  : state * option nat :=
  let s := kill_existing s in
  match findApiPath (mainWindow s) fs with
  | (msgs, Throw message) => start_failed message (emit msgs s)
  | (msgs, Return apiPath) =>
      match stored_credentials s with
      | None =>
          (emit (send (mainWindow s)
                   (ApiError "No credentials found. Please log in again.")) s,
           None)
      | Some c =>
          match spawnThrows node c with
          | Some message => start_failed message s
          | None =>
              let s := spawn c p s in
              (s, pythonProcess s)
          end
      end
  end.

(** Delivery of a [data] chunk to the handlers of worker [pid]. *)
Definition worker_data (pid : nat) (c : Worker.chunk) (s : state) : state :=
  match processes s !! pid with
  | Some {| childEnv := e; closure := w; status := st |} =>
      match st with
      | Closed => s
      | _ =>
          let '(w', evs) := Worker.on_data (mainWindow s) (w, []) c in
          emit evs
            (set_processes
               (<[pid := {| childEnv := e; closure := w'; status := st |}]>
                  (processes s))
               s)
      end
  | None => s
  end.

(** Delivery of the [close] event of worker [pid]: the handler reports to
    the renderer and ends with [pythonProcess = null]. *)
Definition worker_close (pid : nat) (code : option Z) (s : state) : state :=
  match processes s !! pid with
  | Some {| childEnv := e; closure := w; status := st |} =>
      match st with
      | Closed => s
      | _ =>
          set_pythonProcess None
            (emit (Worker.on_close (mainWindow s) code w)
               (set_processes
                  (<[pid := {| childEnv := e; closure := w; status := Closed |}]>
                     (processes s))
                  s))
      end
  | None => s
  end.

(** What the outside contributes to one [login] call: the files on disk,
    what [spawn] refuses, the events of the verification process delivered
    while the call awaits, the bind probe, and the number of allocator
    calls waited for. *)
Record world := {
  fs : filesystem;
  node : runtime;
  verification : list Verifier.event;
  bindable : Z → bool;
  fuel : nat
}.

(** The object an IPC handler resolves to. *)
Record ipc_result := { success : bool; message : option string }.

Definition failure (m : string) : ipc_result :=
  {| success := false; message := Some m |}.

(** [ipcMain.handle('login', ...)]; [None] as result means the call is
    still awaiting. Without an object the first read of
    [credentials.clientId] throws, before anything else was done; the
    outer [catch] sets [isLoggedIn] to [false] and answers with the
    message of the error. For an object no [catch] but the one around the
    verification can run: the port search has no throwing path (each
    probe catches its own errors), and [startPythonApi] catches what it
    throws and returns [null], which the handler does not look at. The
    one-second pause after the kill changes no variable and is left out. *)
Definition login (w : world) (arg : argument) (s : state)
  : state * option ipc_result :=
  match arg with
  | Object c =>
      if negb (truthy (clientId c)) || negb (truthy (clientSecret c))
         || negb (truthy (tenantId c))
      then (s, Some (failure "All fields are required"))
      else
        let s := kill_existing s in
        let v :=
          Verifier.verifyCredentials (mainWindow s) (fs w) (node w) c
            (verification w) in
        let s := emit (Verifier.sent v) s in
        match Verifier.outcome v with
        | Verifier.Pending => (s, None)
        | Verifier.Rejected _ =>
            (s, Some (failure
               "An error occurred during credential verification. Please try again."))
        | Verifier.Resolved false => (s, Some (failure "Invalid credentials"))
        | Verifier.Resolved true =>
            let s := store_set "isLoggedIn" (VBool true)
                       (store_set "graphCredentials" (VCreds c) s) in
            match PortAllocator.found
                    (PortAllocator.findAvailablePort_default (bindable w)
                       (fuel w) 8000)
            with
            | None => (s, None)
            | Some portToUse =>
                let s := (startPythonApi (fs w) (node w) portToUse s).1 in
                let s := store_set "apiPort" (VNum portToUse) s in
                let s := set_apiPort (Some portToUse) s in
                (s, Some {| success := true; message := None |})
            end
        end
  | _ =>
      (store_set "isLoggedIn" (VBool false) s,
       Some (failure (cannot_read_clientId arg)))
  end.

(** [ipcMain.handle('logout', ...)] *)
Definition logout (s : state) : state * ipc_result :=
  let s := store_delete "graphCredentials" s in
  let s := store_set "isLoggedIn" (VBool false) s in
  let s :=
    match pythonProcess s with
    | Some pid =>
        set_apiPort None
          (set_apiStarted false (set_pythonProcess None (kill pid s)))
    | None => s
    end in
  let s :=
    if development s && nextProcess s then set_nextProcess false s else s in
  let s := emit (send (mainWindow s) ShowLogin) s in
  (s, {| success := true; message := None |}).

(** The first statements of the [app.whenReady()] callback. *)
Definition startup_reset (s : state) : state :=
  kill_existing
    (store_delete "graphCredentials" (store_set "isLoggedIn" (VBool false) s)).

(** How [startNextDevServer] went: the port it saw the dev server
    announce, if any, whether its promise resolved, and whether the dev
    server process had closed by then. *)
Record dev_server := { detectedPort : option Z; ready : bool; closed : bool }.

Definition startNextDevServer (d : dev_server) (s : state) : state :=
  let s := set_nextProcess true s in
  let s :=
    match detectedPort d with
    | Some p => store_set "nextJsPort" (VNum p) s
    | None => s
    end in
  if closed d then set_nextProcess false s else s.

(** [createWindow()]: from here on a renderer exists and can call the IPC
    handlers. *)
Definition createWindow (s : state) : state := set_mainWindow true s.

(** The [app.whenReady()] callback. *)
Definition whenReady (d : dev_server) (s : state) : state :=
  let s := startup_reset s in
  if development s then
    let s := startNextDevServer d s in
    if ready d then createWindow s else s
  else createWindow s.

(** The host process as it starts: nothing spawned, no window, and
    whatever the previous run left in the store. *)
Definition fresh (persisted : gmap string value) (dev : bool) : state :=
  {| store := persisted; pythonProcess := None; processes := [];
     mainWindow := false; apiStarted := false; apiPort := Some 8000%Z;
     development := dev; nextProcess := false; sent := [] |}.

(** What the running host reacts to. A [Login] stands for the whole
    call, from the IPC request to its result; the events of the workers
    come between the calls. *)
Inductive event :=
| Login (w : world) (arg : argument)
| Logout
| WorkerData (pid : nat) (c : Worker.chunk)
| WorkerClose (pid : nat) (code : option Z).

Definition step (s : state) (e : event) : state :=
  match e with
  | Login w arg => (login w arg s).1
  | Logout => (logout s).1
  | WorkerData pid c => worker_data pid c s
  | WorkerClose pid code => worker_close pid code s
  end.

Definition run (trace : list event) (s : state) : state :=
  fold_left step trace s.

(** *** Vocabulary for statements about the session *)

(** A form field that is missing or empty. *)
Definition blank (field : option string) : Prop :=
  field = None ∨ field = Some "".

(** Every live worker is the one [pythonProcess] refers to. *)
Definition tracked (s : state) : Prop :=
  ∀ pid, live s pid = true → pythonProcess s = Some pid.

End Main.


(** ** The rest of the main process: the small IPC handlers, shutdown,
    the page-load hooks and the polling of the dev server *)

Module Lifecycle.

Import Js Host Main.

(** [ipcMain.handle('get-api-port', ...)] *)
Definition get_api_port (s : state) : option Z := apiPort s.

(** [ipcMain.handle('get-store-value', ...)]; [None] is [undefined]. *)
Definition get_store_value (key : string) (s : state) : option value :=
  store s !! key.

(** [app.on('before-quit', ...)] *)
Definition before_quit (s : state) : state :=
  let s := kill_existing s in
  if nextProcess s then set_nextProcess false s else s.

(** The flag [initialLoadComplete] and the [show-login] messages sent by
    the page-load hooks. *)
Record page := { initialLoadComplete : bool; shown : list ui_event }.

(** [handlePageLoaded()], the hook of the production build. [usable]
    is [mainWindow && !mainWindow.isDestroyed()]. The second component is
    the returned value. *)
Definition handlePageLoaded (usable : bool) (pg : page) : page * bool :=
  if negb (initialLoadComplete pg) then
    ({| initialLoadComplete := true;
        shown := shown pg ++ send usable ShowLogin |}, false)
  else (pg, false).

(** The [did-finish-load] hook [createWindow] installs in development:
    one [show-login] after 500 ms and a second one a second later. *)
Definition did_finish_load_dev (pg : page) : page :=
  {| initialLoadComplete := true;
     shown := shown pg ++ [ShowLogin; ShowLogin] |}.

(** All page loads of a run, one entry of [usable] for each. *)
Definition page_loads (development : bool) (loads : list bool) (pg : page) : page :=
  fold_left
    (fun pg usable =>
       if development then did_finish_load_dev pg
       else (handlePageLoaded usable pg).1)
    loads pg.

Definition show_logins (evs : list ui_event) : nat :=
  length (List.filter (fun e => match e with ShowLogin => true | _ => false end) evs).






(** *** Vocabulary *)

(** A trace in which no [close] event of a worker is delivered while the
    handle refers to another worker. *)
Fixpoint timely (trace : list event) (s : state) : Prop :=
  match trace with
  | [] => True
  | e :: rest =>
      match e with
      | WorkerClose pid _ =>
          pythonProcess s = None ∨ pythonProcess s = Some pid
      | _ => True
      end
      ∧ timely rest (step s e)
  end.

End Lifecycle.

(** ** [killExistingNextProcesses]: the PIDs read from [netstat] *)

Module NextProcesses.

Import Js.

(** Character classes of the regular expression, on code units below
    256: [\s], [\d], and the line terminators before which [$] matches
    under the [m] flag. *)
Definition is_space (c : ascii) : bool :=
  let n := nat_of_ascii c in
  (9 <=? n) && (n <=? 13) || (n =? 32) || (n =? 160).

Definition is_digit (c : ascii) : bool :=
  let n := nat_of_ascii c in (48 <=? n) && (n <=? 57).

Definition is_line_terminator (c : ascii) : bool :=
  let n := nat_of_ascii c in (n =? 10) || (n =? 13).

(** [\d*$] after a first digit: the rest of the digit run, which has to
    end at the end of the input or before a line terminator. *)
Fixpoint digits_to_end (s : string) : option string :=
  match s with
  | EmptyString => Some EmptyString
  | String c rest =>
      if is_digit c then String c <$> digits_to_end rest
      else if is_line_terminator c then Some EmptyString
      else None
  end.

(** [\s*(\d+)$] after a first white space. A run of white space cannot
    be cut short, since a digit has to follow it, and neither can the run
    of digits, since [$] does not match before a digit. *)
Fixpoint spaces_then_pid (s : string) : option string :=
  match s with
  | EmptyString => None
  | String c rest =>
      if is_space c then spaces_then_pid rest
      else if is_digit c then String c <$> digits_to_end rest
      else None
  end.

(** [/\s+(\d+)$/m] tried at the start of [s]. *)
Definition match_here (s : string) : option string :=
  match s with
  | EmptyString => None
  | String c rest => if is_space c then spaces_then_pid rest else None
  end.

(** [line.match(/\s+(\d+)$/m)], reduced to its group 1: the leftmost
    position at which the expression matches. *)
Fixpoint pid_match (line : string) : option string :=
  match match_here line with
  | Some pid => Some pid
  | None =>
      match line with
      | EmptyString => None
      | String _ rest => pid_match rest
      end
  end.

(** [s.split('\n')] *)
Fixpoint split_lines (s : string) : list string :=
  match s with
  | EmptyString => [EmptyString]
  | String c rest =>
      if (nat_of_ascii c =? 10) then EmptyString :: split_lines rest
      else match split_lines rest with
           | line :: lines => String c line :: lines
           | [] => [String c EmptyString]
           end
  end.

Fixpoint trim_start (s : string) : string :=
  match s with
  | EmptyString => EmptyString
  | String c rest => if is_space c then trim_start rest else s
  end.

(** What is left of [s] when the white space at its end is removed. *)
Fixpoint trim_end (s : string) : string :=
  match s with
  | EmptyString => EmptyString
  | String c rest =>
      match trim_end rest with
      | EmptyString => if is_space c then EmptyString else String c EmptyString
      | kept => String c kept
      end
  end.

(** [s.trim()] *)
Definition trim (s : string) : string := trim_end (trim_start s).

(** [pidsToKill] *)
Definition pidsToKill (stdout : string) : list string :=
  omap pid_match (split_lines (trim stdout)).

(** [killCmd] *)
Definition killCmd (pids : list string) : string :=
  "taskkill /F /PID " +:+ join " /PID " pids.

(** The [taskkill] command the function runs, if it runs one. [error]
    says whether [netstat] ended with an error. *)
Definition killExistingNextProcesses (win32 error : bool) (stdout : string)
  : option string :=
  if negb win32 then None
  else if error && String.eqb (trim stdout) "" then None
  else if negb (String.eqb (trim stdout) "") then
    match pidsToKill stdout with
    | [] => None
    | pids => Some (killCmd pids)
    end
  else None.

(** *** Vocabulary *)

Fixpoint all_chars (p : ascii → bool) (s : string) : bool :=
  match s with
  | EmptyString => true
  | String c rest => p c && all_chars p rest
  end.

(** A nonempty string of decimal digits. *)
Definition is_pid (s : string) : bool :=
  negb (String.eqb s "") && all_chars is_digit s.

(** The carriage return that ends a line of Windows console output. *)
Definition CR : string := String (ascii_of_nat 13) EmptyString.

(** The end of a line after the PID: nothing, or a carriage return. *)
Definition line_end (tail : string) : Prop := tail = "" ∨ tail = CR.

(** A string without line terminators. *)
Definition one_line (s : string) : bool :=
  all_chars (fun c => negb (is_line_terminator c)) s.

End NextProcesses.

(** ** The renderer's home page ([app/page.tsx]) and the login screen
    it renders *)

Module Renderer.

Import Js Host.

(** The state of the [Home] component, and the one fact about the window
    around it that its banner depends on: whether the callback [Home]
    registered with [onApiError] is still among the listeners of the
    [api-error] channel. *)
Record home := {
  showLogin : bool;
  apiError : option string;
  isElectron : bool;
  loading : bool;
  apiErrorListener : bool
}.


(** What reaches the listeners registered in Electron: a message of the
    main process, or the answer to [getStoreValue('isLoggedIn')]. *)
Inductive message :=
| FromMain (e : ui_event)
| IsLoggedIn (v : option bool).


(** The listeners. A message on [api-error] is only heard while the
    callback is registered. *)
Definition listen (m : message) (h : home) : home :=
  match m with
  | FromMain ShowLogin =>
      {| showLogin := true; apiError := apiError h;
         isElectron := isElectron h; loading := false;
         apiErrorListener := apiErrorListener h |}
  | FromMain (ApiReady _) =>
      {| showLogin := false; apiError := None;
         isElectron := isElectron h; loading := false;
         apiErrorListener := apiErrorListener h |}
  | FromMain (ApiError message) =>
      if apiErrorListener h then
        {| showLogin := showLogin h; apiError := Some message;
           isElectron := isElectron h; loading := false;
           apiErrorListener := true |}
      else h
  | IsLoggedIn (Some true) =>
      {| showLogin := false; apiError := apiError h;
         isElectron := isElectron h; loading := false;
         apiErrorListener := apiErrorListener h |}
  | IsLoggedIn _ =>
      {| showLogin := true; apiError := apiError h;
         isElectron := isElectron h; loading := false;
         apiErrorListener := apiErrorListener h |}
  end.

(** The second effect, run when [isElectron] or [showLogin] changed. *)
Definition login_ends_loading (h : home) : home :=
  if isElectron h && showLogin h then
    {| showLogin := showLogin h; apiError := apiError h;
       isElectron := isElectron h; loading := false;
       apiErrorListener := apiErrorListener h |}
  else h.

(** What the component renders. *)
Inductive screen :=
| Initializing
| LoginScreen
| Dashboard (banner : option string).

Definition render (h : home) : screen :=
  if loading h then Initializing
  else if isElectron h && showLogin h then LoginScreen
  else Dashboard (apiError h).

Definition is_login (sc : screen) : bool :=
  match sc with
  | LoginScreen => true
  | _ => false
  end.

(** The [LoginScreen] component is mounted while [Home] renders it; its
    effect registers a callback of its own on [api-error], which writes
    the state of the login form only. When a render no longer has the
    component, the cleanup of that effect runs:
    [removeAllListeners('api-error')], which removes every listener of the
    channel, the callback of [Home] with its own. The effect runs once for
    each mount, as in a production build. *)
Definition unmount_login (before after : home) : home :=
  if is_login (render before) && negb (is_login (render after)) then
    {| showLogin := showLogin after; apiError := apiError after;
       isElectron := isElectron after; loading := loading after;
       apiErrorListener := false |}
  else after.

(** One delivery, up to the render that follows it. Outside Electron no
    listener is registered. *)
Definition deliver (h : home) (m : message) : home :=
  if isElectron h then unmount_login h (login_ends_loading (listen m h))
  else h.


(** *** Vocabulary *)




End Renderer.

(** ** The Winget deployment page ([winget-deployment-page.tsx]) *)

Module Winget.

Import Js.

Record WingetApp := {
  w_id : string;
  w_name : string;
  w_publisher : string;
  w_version : string;
  w_description : string
}.

Record ApiSearchResult := {
  Name : string;
  Id : string;
  Version : string;
  Source : string
}.

Inductive status := Pending | Deploying | Success | Failed.

Record SelectedApp := {
  id : string;
  name : string;
  publisher : string;
  version : string;
  description : string;
  customDescription : option string;
  customPublisher : option string;
  isLocked : bool;
  isConfigured : bool;
  isExpanded : bool;
  deploymentStatus : option status;
  appId : option string;
  errorMessage : option string
}.

(** [/^([^\s]+)/]: the run of characters other than white space at the
    start of the string. *)
Fixpoint leading_word (s : string) : string :=
  match s with
  | EmptyString => EmptyString
  | String c rest =>
      if NextProcesses.is_space c then EmptyString
      else String c (leading_word rest)
  end.

(** [s.split(" ")[0]] *)
Fixpoint before_blank (s : string) : string :=
  match s with
  | EmptyString => EmptyString
  | String c rest =>
      if (nat_of_ascii c =? 32) then EmptyString
      else String c (before_blank rest)
  end.

(** The version shown for a search result. *)
Definition version_of (v : string) : string :=
  match leading_word v with
  | EmptyString => before_blank v
  | word => word
  end.

(** The mapping applied to each item in [fetchSearchResults]. *)
Definition toWingetApp (item : ApiSearchResult) : WingetApp :=
  {| w_id := Id item; w_name := Name item;
     w_version := version_of (Version item);
     w_publisher := "Unknown Publisher";
     w_description := Name item +:+ " (" +:+ Id item +:+ ")" |}.

(** [addApp] *)
Definition addApp (app : WingetApp) (selectedApps : list SelectedApp)
  : list SelectedApp :=
  if existsb (fun selectedApp => String.eqb (id selectedApp) (w_id app))
       selectedApps
  then selectedApps
  else selectedApps ++
       [{| id := w_id app; name := w_name app; publisher := w_publisher app;
           version := w_version app; description := w_description app;
           customDescription := Some (w_description app);
           customPublisher := Some (w_publisher app);
           isLocked := false; isConfigured := false; isExpanded := false;
           deploymentStatus := None; appId := None; errorMessage := None |}].

(** [removeApp] *)
Definition removeApp (appId' : string) (selectedApps : list SelectedApp)
  : list SelectedApp :=
  List.filter (fun app => negb (String.eqb (id app) appId')) selectedApps.

(** The two field names the form passes to [updateAppConfig]. *)
Inductive config_field := CustomDescription | CustomPublisher.

(** [updateAppConfig] *)
Definition updateAppConfig (appId' : string) (field : config_field)
    (value : string) (selectedApps : list SelectedApp) : list SelectedApp :=
  map (fun app =>
         if String.eqb (id app) appId' then
           {| id := id app; name := name app; publisher := publisher app;
              version := version app; description := description app;
              customDescription :=
                match field with
                | CustomDescription => Some value
                | CustomPublisher => customDescription app
                end;
              customPublisher :=
                match field with
                | CustomPublisher => Some value
                | CustomDescription => customPublisher app
                end;
              isLocked := isLocked app; isConfigured := isConfigured app;
              isExpanded := isExpanded app;
              deploymentStatus := deploymentStatus app; appId := appId app;
              errorMessage := errorMessage app |}
         else app)
    selectedApps.

(** [toggleAppExpansion] *)
Definition toggleAppExpansion (appId' : string) (selectedApps : list SelectedApp)
  : list SelectedApp :=
  map (fun app =>
         if String.eqb (id app) appId' && negb (isLocked app) then
           {| id := id app; name := name app; publisher := publisher app;
              version := version app; description := description app;
              customDescription := customDescription app;
              customPublisher := customPublisher app;
              isLocked := isLocked app; isConfigured := isConfigured app;
              isExpanded := negb (isExpanded app);
              deploymentStatus := deploymentStatus app; appId := appId app;
              errorMessage := errorMessage app |}
         else app)
    selectedApps.

(** [toggleLockApp] *)
Definition toggleLockApp (appId' : string) (selectedApps : list SelectedApp)
  : list SelectedApp :=
  map (fun app =>
         if String.eqb (id app) appId' then
           {| id := id app; name := name app; publisher := publisher app;
              version := version app; description := description app;
              customDescription := customDescription app;
              customPublisher := customPublisher app;
              isLocked := negb (isLocked app);
              isConfigured :=
                truthy (customDescription app) && truthy (customPublisher app);
              isExpanded := false;
              deploymentStatus := deploymentStatus app; appId := appId app;
              errorMessage := errorMessage app |}
         else app)
    selectedApps.

(** [{ ...app, deploymentStatus: st }] *)
Definition with_status (st : status) (app : SelectedApp) : SelectedApp :=
  {| id := id app; name := name app; publisher := publisher app;
     version := version app; description := description app;
     customDescription := customDescription app;
     customPublisher := customPublisher app;
     isLocked := isLocked app; isConfigured := isConfigured app;
     isExpanded := isExpanded app;
     deploymentStatus := Some st; appId := appId app;
     errorMessage := errorMessage app |}.

Record UploadRequest := {
  path : string;
  display_name : string;
  package_id : string;
  r_publisher : string;
  r_description : string
}.

(** [a || b] on an optional string and a string. *)
Definition or_else (a : option string) (b : string) : string :=
  match a with
  | Some s => if String.eqb s "" then b else s
  | None => b
  end.

Definition INTUNEWIN_PATH : string := "files/Winget-InstallPackage.intunewin".

Definition payload (app : SelectedApp) : UploadRequest :=
  {| path := INTUNEWIN_PATH; display_name := name app; package_id := id app;
     r_publisher := or_else (customPublisher app) (publisher app);
     r_description := or_else (customDescription app) (description app) |}.

(** How the request to [/apps] went: an answer with an [app_id], an
    answer that is not ok with its body, or an [Error] thrown on the way. *)
Inductive response :=
| Deployed (app_id : string)
| Refused (errorData : string)
| Broken (message : string).

(** [deployApp]; [api] answers the request. *)
Definition deployApp (api : UploadRequest → response) (app : SelectedApp)
  : SelectedApp :=
  match api (payload app) with
  | Deployed app_id =>
      {| id := id app; name := name app; publisher := publisher app;
         version := version app; description := description app;
         customDescription := customDescription app;
         customPublisher := customPublisher app;
         isLocked := isLocked app; isConfigured := isConfigured app;
         isExpanded := isExpanded app;
         deploymentStatus := Some Success; appId := Some app_id;
         errorMessage := errorMessage app |}
  | Refused errorData =>
      {| id := id app; name := name app; publisher := publisher app;
         version := version app; description := description app;
         customDescription := customDescription app;
         customPublisher := customPublisher app;
         isLocked := isLocked app; isConfigured := isConfigured app;
         isExpanded := isExpanded app;
         deploymentStatus := Some Failed; appId := appId app;
         errorMessage :=
           Some (or_else (Some errorData) "Failed to deploy application") |}
  | Broken message =>
      {| id := id app; name := name app; publisher := publisher app;
         version := version app; description := description app;
         customDescription := customDescription app;
         customPublisher := customPublisher app;
         isLocked := isLocked app; isConfigured := isConfigured app;
         isExpanded := isExpanded app;
         deploymentStatus := Some Failed; appId := appId app;
         errorMessage := Some message |}
  end.

(** The [for] loop of [deployApps]. [api n] answers the request number
    [n]. The result is the lists passed to [setSelectedApps], in order,
    and [updatedApps] at the end. The progress percentage is left out. *)
Fixpoint deploy_loop (api : nat → UploadRequest → response) (n : nat)
    (appsToDeployList updatedApps : list SelectedApp)
  : list (list SelectedApp) * list SelectedApp :=
  match appsToDeployList with
  | [] => ([], updatedApps)
  | app :: rest =>
      let deploying :=
        map (fun a => if String.eqb (id a) (id app)
                      then with_status Deploying a else a)
          updatedApps in
      let deployedApp := deployApp (api n) app in
      let updatedApps :=
        map (fun a => if String.eqb (id a) (id deployedApp)
                      then deployedApp else a)
          deploying in
      let '(sets, final) := deploy_loop api (S n) rest updatedApps in
      (deploying :: updatedApps :: sets, final)
  end.

(** What [deployApps] did: whether it only raised the alert, the lists it
    passed to [setSelectedApps], and the list shown at the end. *)
Record deployment := {
  alerted : bool;
  sets : list (list SelectedApp);
  shown : list SelectedApp
}.

(** [deployApps] *)
Definition deployApps (api : nat → UploadRequest → response)
    (selectedApps : list SelectedApp) : deployment :=
  if length (List.filter isLocked selectedApps) =? 0 then
    {| alerted := true; sets := []; shown := selectedApps |}
  else
    let pending :=
      map (fun app => if isLocked app then with_status Pending app else app)
        selectedApps in
    let '(sets, final) :=
      deploy_loop api 0 (List.filter isLocked selectedApps) selectedApps in
    {| alerted := false; sets := pending :: sets; shown := final |}.

Record stats := { total : nat; successful : nat; failed : nat; pending : nat }.

Definition has_status (st : status) (app : SelectedApp) : bool :=
  match deploymentStatus app, st with
  | Some Pending, Pending | Some Deploying, Deploying
  | Some Success, Success | Some Failed, Failed => true
  | _, _ => false
  end.

(** [getDeploymentStats] *)
Definition getDeploymentStats (selectedApps : list SelectedApp) : stats :=
  let lockedApps := List.filter isLocked selectedApps in
  {| total := length lockedApps;
     successful := length (List.filter (has_status Success) lockedApps);
     failed := length (List.filter (has_status Failed) lockedApps);
     pending :=
       length (List.filter
                 (fun app => has_status Pending app || has_status Deploying app)
                 lockedApps) |}.

(** *** Vocabulary *)

(** No two selected apps share an id. *)
Definition distinct_ids (selectedApps : list SelectedApp) : Prop :=
  NoDup (id <$> selectedApps).

(** A locked app has its panel closed. *)
Definition locked_closed (selectedApps : list SelectedApp) : Prop :=
  Forall (fun app => isLocked app = true → isExpanded app = false) selectedApps.

(** Every locked app deployed in order, the others left as they are. *)
Fixpoint deploy_locked (api : nat → UploadRequest → response) (n : nat)
    (selectedApps : list SelectedApp) : list SelectedApp :=
  match selectedApps with
  | [] => []
  | app :: rest =>
      if isLocked app
      then deployApp (api n) app :: deploy_locked api (S n) rest
      else app :: deploy_locked api n rest
  end.

End Winget.

(** ** Vocabulary for statements about messages *)

Module Messages.

Import Host.

Definition is_api_ready (e : ui_event) : bool :=
  match e with
  | ApiReady _ => true
  | _ => false
  end.

End Messages.

(** ** Starting points *)

Module Pages.

(** No page has loaded yet. *)
Definition unloaded : Lifecycle.page :=
  {| Lifecycle.initialLoadComplete := false; Lifecycle.shown := [] |}.

End Pages.
(** ** Concrete inputs used by the examples below *)

Module Fixtures.

Import Js Host.

(** [api.py] is where the first candidate path says. *)
Definition fs_installed : filesystem :=
  {| possibleApiPaths := ["api/api.py"]; existsSync := fun _ => true |}.

(** No candidate path exists. *)
Definition fs_missing : filesystem :=
  {| possibleApiPaths := ["api/api.py"]; existsSync := fun _ => false |}.

(** The character with code 0. *)
Definition NUL : string := String (ascii_of_nat 0) EmptyString.

Definition has_nul (field : option string) : bool :=
  match field with
  | Some s => includes s NUL
  | None => false
  end.

(** A runtime that, like Node, refuses an environment value holding a
    NUL character and accepts every other. The message is abridged. *)
Definition node : runtime :=
  {| spawnThrows := fun c =>
       if has_nul (clientId c) || has_nul (clientSecret c)
          || has_nul (tenantId c)
       then Some "The property 'options.env' must be a string without null bytes."
       else None |}.

Definition creds : credentials :=
  {| clientId := Some "client"; clientSecret := Some "secret";
     tenantId := Some "tenant" |}.

(** The secret was left empty in the form. *)
Definition creds_no_secret : credentials :=
  {| clientId := Some "client"; clientSecret := Some "";
     tenantId := Some "tenant" |}.

(** The secret holds a NUL character. *)
Definition creds_nul_secret : credentials :=
  {| clientId := Some "client"; clientSecret := Some ("sec" +:+ NUL +:+ "ret");
     tenantId := Some "tenant" |}.

(** Only port 8201 can be bound. *)
Definition only_8201 (p : Z) : bool := (p =? 8201)%Z.

(** A login whose verification prints the success line and whose first
    probed port is free. *)
Definition accepting : Main.world :=
  {| Main.fs := fs_installed;
     Main.node := node;
     Main.verification := [Verifier.Stdout "Authentication successful"];
     Main.bindable := fun _ => true;
     Main.fuel := 1 |}.

(** A login whose verification reports an invalid secret. *)
Definition refusing : Main.world :=
  {| Main.fs := fs_installed;
     Main.node := node;
     Main.verification := [Verifier.Stderr "AADSTS7000215: Invalid client secret"];
     Main.bindable := fun _ => true;
     Main.fuel := 1 |}.

(** The host after startup in production mode, with an empty store. *)
Definition booted : Main.state :=
  Main.whenReady
    {| Main.detectedPort := None; Main.ready := true; Main.closed := false |}
    (Main.fresh ∅ false).

(** Two logins in a row; the first worker's [close] event arrives only
    after the second worker has been spawned. *)
Definition late_close : list Main.event :=
  [Main.Login accepting creds; Main.Login accepting creds;
   Main.WorkerClose 0 None].

Definition fresh_closure : Worker.closure :=
  {| Worker.port := 8000; Worker.apiStarted := false; Worker.apiErrors := [] |}.

End Fixtures.


(** ** Further concrete inputs *)

Module MoreFixtures.

Import Js Host.

(** Ports 8000 to 8002 are taken, everything above is free. *)
Definition above_8002 (p : Z) : bool := (8002 <? p)%Z.

(** Two lines of [netstat -ano] output for port 3030, as [findstr] passes
    them on, with the line ends of the Windows console. *)
Definition netstat_3030 : string :=
  "  TCP    0.0.0.0:3030           0.0.0.0:0              LISTENING       4242"
  +:+ NextProcesses.CR +:+ String (ascii_of_nat 10) ""
  +:+ "  TCP    [::]:3030              [::]:0                 LISTENING       977"
  +:+ NextProcesses.CR +:+ String (ascii_of_nat 10) "".

Definition firefox : Winget.WingetApp :=
  {| Winget.w_id := "Mozilla.Firefox"; Winget.w_name := "Mozilla Firefox";
     Winget.w_publisher := "Unknown Publisher"; Winget.w_version := "126.0";
     Winget.w_description := "Mozilla Firefox (Mozilla.Firefox)" |}.

Definition vlc : Winget.WingetApp :=
  {| Winget.w_id := "VideoLAN.VLC"; Winget.w_name := "VLC media player";
     Winget.w_publisher := "Unknown Publisher"; Winget.w_version := "3.0.20";
     Winget.w_description := "VLC media player (VideoLAN.VLC)" |}.

(** Firefox selected and locked, VLC selected with its panel open. *)
Definition selection : list Winget.SelectedApp :=
  Winget.toggleAppExpansion "VideoLAN.VLC"
    (Winget.toggleLockApp "Mozilla.Firefox"
       (Winget.addApp vlc (Winget.addApp firefox []))).

(** An API that accepts every upload. *)
Definition accepts_all (n : nat) (r : Winget.UploadRequest) : Winget.response :=
  Winget.Deployed ("app-" +:+ Winget.package_id r).

End MoreFixtures.
(** * Properties *)

Import Js Host.

(** ** Port allocator *)

Section PortAllocatorFacts.

Import PortAllocator.

Variable bindable : Z → bool.

Lemma scan_all_fail (n : nat) (port : Z) (failedPorts : gset Z) :
  (∀ p, (port ≤ p < port + Z.of_nat n)%Z → bindable p = false) →
  scan bindable n port failedPorts = None.
Proof.
  revert port failedPorts.
  induction n as [|n IH]; intros port failedPorts Hfail; simpl; [done|].
  destruct (decide (port ∈ failedPorts)).
  - apply IH. intros p Hp. apply Hfail. lia.
  - rewrite Hfail by lia. apply IH. intros p Hp. apply Hfail. lia.
Qed.

(** A port the loop returns passed its bind probe and lies in the range. *)
Lemma scan_sound (n : nat) (port : Z) (failedPorts : gset Z) (p : Z) :
  scan bindable n port failedPorts = Some p →
  bindable p = true ∧ (port ≤ p < port + Z.of_nat n)%Z.
Proof.
  revert port failedPorts.
  induction n as [|n IH]; intros port failedPorts; simpl; [done|].
  destruct (decide (port ∈ failedPorts)).
  - intros H. apply IH in H. split; [tauto | lia].
  - destruct (bindable port) eqn:Hb.
    + intros [= <-]. split; [done | lia].
    + intros H. apply IH in H. split; [tauto | lia].
Qed.

(** The failed set only ever holds ports the loop has passed, so it never
    hides a port that is still to be probed. *)
Lemma scan_complete (n : nat) (port : Z) (failedPorts : gset Z) (q : Z) :
  (∀ x, x ∈ failedPorts → (x < port)%Z) →
  bindable q = true → (port ≤ q < port + Z.of_nat n)%Z →
  is_Some (scan bindable n port failedPorts).
Proof.
  revert port failedPorts.
  induction n as [|n IH]; intros port failedPorts Hpast Hq Hrange; simpl; [lia|].
  destruct (decide (port ∈ failedPorts)) as [Hin|_].
  - apply Hpast in Hin. lia.
  - destruct (bindable port) eqn:Hb; [by eexists|].
    apply IH; [|done|].
    + intros x Hx. apply elem_of_union in Hx as [Hx|Hx].
      * apply elem_of_singleton in Hx. lia.
      * apply Hpast in Hx. lia.
    + assert (q ≠ port) by congruence. lia.
Qed.

Lemma findAvailablePort_sound (fuel : nat) (startPort endPort p : Z) :
  found (findAvailablePort bindable fuel startPort endPort) = Some p →
  bindable p = true.
Proof.
  revert startPort endPort.
  induction fuel as [|fuel IH]; intros startPort endPort; simpl; [done|].
  destruct (scan bindable _ startPort ∅) as [port|] eqn:Hscan; simpl.
  - intros [= <-]. by apply scan_sound in Hscan as [? _].
  - apply IH.
Qed.

(** With a bindable port at or above [startPort], enough calls return. *)
Lemma findAvailablePort_finds (n : nat) (startPort endPort q : Z) :
  bindable q = true → (startPort ≤ q)%Z → (q ≤ endPort + 100 * Z.of_nat n)%Z →
  ∃ p, found (findAvailablePort bindable (S n) startPort endPort) = Some p
       ∧ bindable p = true.
Proof.
  revert startPort endPort.
  induction n as [|n IH]; intros startPort endPort Hq Hlo Hhi;
    cbn [findAvailablePort];
    destruct (scan bindable _ startPort ∅) as [port|] eqn:Hscan; simpl.
  - exists port. split; [done|]. by apply scan_sound in Hscan as [? _].
  - assert (is_Some (scan bindable (Z.to_nat (endPort - startPort + 1))
                       startPort ∅)) as [? Hsome].
    { apply (scan_complete _ _ _ q); [set_solver | done | lia]. }
    congruence.
  - exists port. split; [done|]. by apply scan_sound in Hscan as [? _].
  - destruct (decide (q ≤ endPort)%Z) as [Hin|Hout].
    + assert (is_Some (scan bindable (Z.to_nat (endPort - startPort + 1))
                         startPort ∅)) as [? Hsome].
      { apply (scan_complete _ _ _ q); [set_solver | done | lia]. }
      congruence.
    + apply IH; [done | lia | lia].
Qed.

End PortAllocatorFacts.

(** C2, as stated, fails: with 8000..8200 all taken and 8201 free, the
    call on 8000..8100 reports two exhausted ranges before it returns
    8201. The second one is 8101..8200, one hundred ports, and not
    8101..8201: the range the search recursed into did not hold
    [end + 101]. *)
Lemma next_range_stops_at_end_plus_100 :
  let r := PortAllocator.findAvailablePort Fixtures.only_8201 3 8000 8100 in
  PortAllocator.warnings r = [(8000, 8100); (8101, 8200)]%Z
  ∧ PortAllocator.found r = Some 8201%Z
  ∧ PortAllocator.scan Fixtures.only_8201
      (Z.to_nat (8201 - 8101 + 1)) 8101 ∅ = Some 8201%Z.
Proof. vm_compute. done. Qed.

(** C2, amended: when every port of [startPort..endPort] fails its bind
    probe, the call warns about that range and continues as the call on
    [endPort + 1 .. endPort + 100]; whatever port a search returns passed
    its probe, and no result of the search is an error. *)
Theorem exhausted_range_recurses_into_next_hundred
    (bindable : Z → bool) (fuel : nat) (startPort endPort : Z) :
  (∀ p, (startPort ≤ p ≤ endPort)%Z → bindable p = false) →
  let next :=
    PortAllocator.findAvailablePort bindable fuel (endPort + 1) (endPort + 100) in
  PortAllocator.findAvailablePort bindable (S fuel) startPort endPort
  = {| PortAllocator.warnings := (startPort, endPort) :: PortAllocator.warnings next;
       PortAllocator.found := PortAllocator.found next |}
  ∧ ∀ p, PortAllocator.found next = Some p → bindable p = true.
Proof.
  intros Hfail next. split.
  - cbn [PortAllocator.findAvailablePort].
    rewrite scan_all_fail; [done|]. intros p Hp. apply Hfail. lia.
  - intros p. apply findAvailablePort_sound.
Qed.

Lemma exhausted_range_recurses_into_next_hundred_witness :
  (∀ p, (8000 ≤ p ≤ 8100)%Z → Fixtures.only_8201 p = false)
  ∧ PortAllocator.findAvailablePort Fixtures.only_8201 3 8000 8100
    = {| PortAllocator.warnings :=
           (8000, 8100)%Z
           :: PortAllocator.warnings
                (PortAllocator.findAvailablePort Fixtures.only_8201 2 8101 8200);
         PortAllocator.found :=
           PortAllocator.found
             (PortAllocator.findAvailablePort Fixtures.only_8201 2 8101 8200) |}.
Proof.
  assert (∀ p, (8000 ≤ p ≤ 8100)%Z → Fixtures.only_8201 p = false) as Hfail.
  { intros p Hp. unfold Fixtures.only_8201. lia. }
  split; [exact Hfail|].
  exact (proj1 (exhausted_range_recurses_into_next_hundred
                  Fixtures.only_8201 2 8000 8100 Hfail)).
Defined.

(** ** String primitives *)

Section JsFacts.

Lemma prefix_spec (p s : string) :
  String.prefix p s = true ↔ ∃ post, s = p +:+ post.
Proof.
  revert s. induction p as [|a p IH]; intros s.
  - split; [intros _; by exists s | by destruct s].
  - destruct s as [|b s].
    + split; [done | intros [post Hpost]; discriminate Hpost].
    + change (String.prefix (String a p) (String b s))
        with (if Ascii.ascii_dec a b then String.prefix p s else false).
      destruct (Ascii.ascii_dec a b) as [->|Hne].
      * rewrite IH. split; intros [post Hpost]; exists post.
        -- change (String b s = String b (p +:+ post)). by f_equal.
        -- change (String b s = String b (p +:+ post)) in Hpost.
           by injection Hpost.
      * split; [done|]. intros [post Hpost].
        change (String b s = String a (p +:+ post)) in Hpost.
        injection Hpost as Hab _. congruence.
Qed.

(** [includes] finds exactly the substrings. *)
Lemma includes_spec (s needle : string) :
  includes s needle = true ↔ ∃ pre post, s = pre +:+ needle +:+ post.
Proof.
  induction s as [|a s IH].
  - change (includes "" needle)
      with (if String.prefix needle "" then true else false).
    destruct (String.prefix needle "") eqn:Hp.
    + apply prefix_spec in Hp as [post Hpost].
      split; [intros _; by exists "", post | done].
    + split; [done|]. intros ([|b pre] & post & Heq).
      * assert (String.prefix needle "" = true) as Hp'
          by (apply prefix_spec; by exists post).
        congruence.
      * discriminate Heq.
  - change (includes (String a s) needle)
      with (if String.prefix needle (String a s) then true
            else includes s needle).
    destruct (String.prefix needle (String a s)) eqn:Hp.
    + apply prefix_spec in Hp as [post Hpost].
      split; [intros _; by exists "", post | done].
    + rewrite IH. split.
      * intros (pre & post & ->). by exists (String a pre), post.
      * intros ([|b pre] & post & Heq).
        -- assert (String.prefix needle (String a s) = true) as Hp'
             by (apply prefix_spec; by exists post).
           congruence.
        -- change (String a s = String b (pre +:+ needle +:+ post)) in Heq.
           injection Heq as _ ->. by exists pre, post.
Qed.

End JsFacts.

(** ** Credential verifier *)

Section VerifierFacts.

Import Verifier.

Variable mainWindow : bool.

(** A handler leaves the promise alone or calls [resolve]; it leaves the
    timer alone or clears it, and it clears it only together with a
    [resolve]. *)
Lemma step_effect (v : vstate) (e : event) :
  (verifyTimeout (step mainWindow v e) = verifyTimeout v
   ∨ (verifyTimeout (step mainWindow v e) = None
      ∧ ∃ b, outcome (step mainWindow v e) = settle b (outcome v)))
  ∧ (outcome (step mainWindow v e) = outcome v
     ∨ ∃ b, outcome (step mainWindow v e) = settle b (outcome v)).
Proof.
  destruct e as [output|output|code|]; simpl;
    unfold on_stdout, on_stderr, on_close, on_timeout;
    repeat case_match; simpl; (split; [|by eauto]); eauto.
Qed.

Lemma on_timeout_disarms (v : vstate) :
  verifyTimeout (on_timeout mainWindow v) = None.
Proof. unfold on_timeout. repeat case_match; simpl; done. Qed.

Lemma settle_unrejected (b : bool) (p : promise) :
  (∀ message, p ≠ Rejected message) → ∃ valid, settle b p = Resolved valid.
Proof. destruct p; simpl; intros H; [eauto | eauto | by destruct (H message)]. Qed.

Lemma step_settled_when_disarmed (v : vstate) (e : event) :
  settled_when_disarmed v → settled_when_disarmed (step mainWindow v e).
Proof.
  intros [Hrej Htimer].
  destruct (step_effect v e) as [Ht Ho].
  assert (∀ message, outcome (step mainWindow v e) ≠ Rejected message) as Hrej'.
  { intros message. destruct Ho as [-> | [b ->]]; [apply Hrej|].
    destruct (settle_unrejected b _ Hrej) as [valid ->]. done. }
  split; [exact Hrej'|].
  intros Hnone. destruct Ht as [Hsame | [_ [b Hb]]].
  - rewrite Hsame in Hnone. destruct (Htimer Hnone) as [valid Hv].
    destruct Ho as [-> | [b ->]]; rewrite Hv; simpl; eauto.
  - rewrite Hb. by apply settle_unrejected.
Qed.

Lemma run_settled_when_disarmed (trace : list event) (v : vstate) :
  settled_when_disarmed v → settled_when_disarmed (run mainWindow trace v).
Proof.
  revert v. induction trace as [|e trace IH]; intros v Hv; [done|].
  apply IH. by apply step_settled_when_disarmed.
Qed.

Lemma run_stays_disarmed (trace : list event) (v : vstate) :
  verifyTimeout v = None → verifyTimeout (run mainWindow trace v) = None.
Proof.
  revert v. induction trace as [|e trace IH]; intros v Hv; [done|].
  apply IH. destruct (step_effect v e) as [[-> | [-> _]] _]; done.
Qed.

Lemma run_disarmed_after_timeout (trace : list event) (v : vstate) :
  In Timeout trace → verifyTimeout (run mainWindow trace v) = None.
Proof.
  revert v. induction trace as [|e trace IH]; intros v; [done|].
  intros [-> | Hin].
  - change (verifyTimeout
              (run mainWindow trace (on_timeout mainWindow v)) = None).
    apply run_stays_disarmed. apply on_timeout_disarms.
  - by apply IH.
Qed.

(** No handler touches what was spawned. *)
Lemma run_spawned (trace : list event) (v : vstate) :
  spawned (run mainWindow trace v) = spawned v.
Proof.
  revert v. induction trace as [|e trace IH]; intros v; [done|].
  change (spawned (run mainWindow trace (step mainWindow v e)) = spawned v).
  rewrite IH. destruct e as [output|output|code|]; simpl;
    unfold on_stdout, on_stderr, on_close, on_timeout;
    repeat case_match; done.
Qed.

Lemma start_spawns (fs : filesystem) (node : runtime) (c : credentials)
    (apiPath : string) :
  In apiPath (possibleApiPaths fs) → existsSync fs apiPath = true →
  spawnThrows node c = None →
  ∃ p, start mainWindow fs node c
       = {| spawned := Some (p, c); authOutput := ""; authError := "";
            authSuccess := false; authFailed := false;
            verifyTimeout := Some 15000%Z; kills := 0; outcome := Pending;
            sent := [] |}.
Proof.
  intros Hin Hex Hspawn. unfold start, findApiPath. rewrite Hspawn.
  destruct (List.find (existsSync fs) (possibleApiPaths fs)) as [p|] eqn:Hfind.
  - by exists p.
  - apply find_none with (x := apiPath) in Hfind; [congruence | done].
Qed.

(** The executor in its three cases: no script, a throwing [spawn], a
    spawned process. *)
Lemma start_cases (fs : filesystem) (node : runtime) (c : credentials) :
  match List.find (existsSync fs) (possibleApiPaths fs), spawnThrows node c with
  | None, _ =>
      start mainWindow fs node c
      = rejected "Could not locate API api.py file"
          (send mainWindow
             (ApiError "Could not locate the API module. Please check your installation."))
  | Some _, Some error => start mainWindow fs node c = rejected error []
  | Some apiPath, None =>
      start mainWindow fs node c
      = {| spawned := Some (apiPath, c); authOutput := ""; authError := "";
           authSuccess := false; authFailed := false;
           verifyTimeout := Some 15000%Z; kills := 0; outcome := Pending;
           sent := [] |}
  end.
Proof.
  unfold start, findApiPath.
  destruct (List.find (existsSync fs) (possibleApiPaths fs)) as [p|]; [|done].
  by destruct (spawnThrows node c).
Qed.

(** When [spawn] throws there is no process: the promise is rejected
    with the error, whatever the trace. *)
Lemma verify_spawn_throws (fs : filesystem) (node : runtime) (c : credentials)
    (apiPath error : string) (trace : list event) :
  In apiPath (possibleApiPaths fs) → existsSync fs apiPath = true →
  spawnThrows node c = Some error →
  verifyCredentials mainWindow fs node c trace = rejected error [].
Proof.
  intros Hin Hex Hspawn. pose proof (start_cases fs node c) as Hstart.
  rewrite Hspawn in Hstart. unfold verifyCredentials.
  destruct (List.find (existsSync fs) (possibleApiPaths fs)) as [p|] eqn:Hfind.
  - by rewrite Hstart.
  - apply find_none with (x := apiPath) in Hfind; [congruence | done].
Qed.

End VerifierFacts.

(** C1, as stated, fails: the promise is rejected, not resolved to a
    boolean, whenever the [try] block of the executor throws. It does so
    when [api.py] is at none of the candidate paths ([findApiPath]
    throws), and, with [api.py] in place, when [spawn] refuses the
    environment made from the credentials, here a secret that holds a NUL
    character. *)
Lemma verifyCredentials_rejects_when_try_block_throws :
  Verifier.outcome
    (Verifier.verifyCredentials true Fixtures.fs_missing Fixtures.node
       Fixtures.creds [])
  = Verifier.Rejected "Could not locate API api.py file"
  ∧ ∃ error,
      Verifier.outcome
        (Verifier.verifyCredentials true Fixtures.fs_installed Fixtures.node
           Fixtures.creds_nul_secret
           [Verifier.Stdout "Authentication successful"; Verifier.Timeout])
      = Verifier.Rejected error.
Proof. split; [vm_compute; done|]. eexists. vm_compute. reflexivity. Qed.

(** C1, amended: the promise of [verifyCredentials] is rejected exactly
    when the [try] block of its executor throws, and then in the call
    itself, with the error thrown, without a process or a timer: with the
    error of [findApiPath] when [api.py] is at none of the candidate
    paths, and with the error of [spawn] when that call throws. In every
    other case, for every credentials object, the promise is never
    rejected, whatever the verification process does. The call arms a
    timer of 15000 ms, and once that timer has fired, or has been cleared,
    the promise is resolved to a boolean. *)
Theorem verifyCredentials_resolves_by_timeout
    (mainWindow : bool) (fs : filesystem) (node : runtime) (c : credentials)
    (trace : list Verifier.event) :
  let v := Verifier.verifyCredentials mainWindow fs node c trace in
  match List.find (existsSync fs) (possibleApiPaths fs), spawnThrows node c with
  | None, _ =>
      Verifier.outcome v = Verifier.Rejected "Could not locate API api.py file"
      ∧ Verifier.spawned v = None
      ∧ Verifier.verifyTimeout v = None
  | Some _, Some error =>
      Verifier.outcome v = Verifier.Rejected error
      ∧ Verifier.spawned v = None
      ∧ Verifier.verifyTimeout v = None
  | Some apiPath, None =>
      (∀ message, Verifier.outcome v ≠ Verifier.Rejected message)
      ∧ Verifier.spawned v = Some (apiPath, c)
      ∧ Verifier.verifyTimeout
          (Verifier.verifyCredentials mainWindow fs node c [])
        = Some 15000%Z
      ∧ (In Verifier.Timeout trace ∨ Verifier.verifyTimeout v = None →
         ∃ valid, Verifier.outcome v = Verifier.Resolved valid)
  end.
Proof.
  intros v. subst v. pose proof (start_cases mainWindow fs node c) as Hstart.
  unfold Verifier.verifyCredentials.
  destruct (List.find (existsSync fs) (possibleApiPaths fs)) as [apiPath|];
    [destruct (spawnThrows node c) as [error|]|]; rewrite Hstart; try done.
  cbn [Verifier.spawned].
  match goal with |- context [Verifier.run _ trace ?v0] => set (v := v0) end.
  assert (Verifier.settled_when_disarmed v) as Hv by (split; done).
  apply (run_settled_when_disarmed mainWindow trace) in Hv as [Hrej Htimer].
  split; [exact Hrej|]. split; [apply run_spawned|]. split; [done|].
  intros [Ht | Hnone]; apply Htimer; [|exact Hnone].
  by apply run_disarmed_after_timeout.
Qed.

Lemma verifyCredentials_resolves_by_timeout_witness :
  let trace :=
    [Verifier.Stderr "DEBUG: contacting login endpoint"; Verifier.Timeout] in
  let v :=
    Verifier.verifyCredentials true Fixtures.fs_installed Fixtures.node
      Fixtures.creds trace in
  let v' :=
    Verifier.verifyCredentials true Fixtures.fs_installed Fixtures.node
      Fixtures.creds_nul_secret trace in
  ((∀ message, Verifier.outcome v ≠ Verifier.Rejected message)
   ∧ ∃ valid, Verifier.outcome v = Verifier.Resolved valid)
  ∧ (∃ error, Verifier.outcome v' = Verifier.Rejected error)
  ∧ Verifier.verifyTimeout v' = None.
Proof.
  intros trace v v'.
  pose proof (verifyCredentials_resolves_by_timeout true Fixtures.fs_installed
                Fixtures.node Fixtures.creds trace) as H.
  pose proof (verifyCredentials_resolves_by_timeout true Fixtures.fs_installed
                Fixtures.node Fixtures.creds_nul_secret trace) as H'.
  assert (List.find (existsSync Fixtures.fs_installed)
            (possibleApiPaths Fixtures.fs_installed) = Some "api/api.py")
    as Hfind by reflexivity.
  assert (spawnThrows Fixtures.node Fixtures.creds = None) as Hok
    by reflexivity.
  assert (∃ error, spawnThrows Fixtures.node Fixtures.creds_nul_secret
                   = Some error) as [error Hthrows]
    by (eexists; vm_compute; reflexivity).
  assert (In Verifier.Timeout trace) as Ht by (simpl; auto).
  cbv zeta in H, H'. rewrite Hfind in H, H'. rewrite Hok in H.
  rewrite Hthrows in H'.
  destruct H as (Hrej & _ & _ & Hres). destruct H' as (Hout & _ & Hnotimer).
  split; [split; [exact Hrej | exact (Hres (or_introl Ht))]|].
  split; [by exists error | exact Hnotimer].
Defined.

(** C3, as stated, fails: the line "Authentication successful" on
    [stderr] is not taken as success. The promise stays pending and the
    verification process is not killed. *)
Lemma stderr_authentication_successful_is_ignored :
  let v :=
    Verifier.verifyCredentials true Fixtures.fs_installed Fixtures.node Fixtures.creds
      [Verifier.Stderr "Authentication successful"] in
  Verifier.outcome v = Verifier.Pending
  ∧ Verifier.kills v = 0
  ∧ Verifier.authSuccess v = false.
Proof. vm_compute. done. Qed.

(** C3, amended: while the promise is pending, a chunk with a success
    marker of its own stream ("Authentication successful" or "Token
    acquired successfully" on [stdout]; "INFO:" together with "access
    token" on [stderr]) resolves it to [true] at once, clears the timer and
    kills the verification process, whatever else the chunk contains; it
    sends nothing to the renderer. *)
Theorem success_marker_resolves_true
    (mainWindow : bool) (e : Verifier.event) (v : Verifier.vstate) :
  Verifier.outcome v = Verifier.Pending →
  Verifier.success_marker e = true →
  let v' := Verifier.step mainWindow v e in
  Verifier.outcome v' = Verifier.Resolved true
  ∧ Verifier.kills v' = S (Verifier.kills v)
  ∧ Verifier.verifyTimeout v' = None
  ∧ Verifier.authSuccess v' = true
  ∧ Verifier.sent v' = Verifier.sent v.
Proof.
  intros Hpending Hmarker.
  destruct e as [output|output|code|]; simpl in Hmarker; try done; simpl.
  - unfold Verifier.on_stdout. rewrite Hmarker. simpl. by rewrite Hpending.
  - unfold Verifier.on_stderr. rewrite Hmarker. simpl. by rewrite Hpending.
Qed.

Lemma success_marker_resolves_true_witness :
  let v := Verifier.start true Fixtures.fs_installed Fixtures.node Fixtures.creds in
  let e := Verifier.Stderr "INFO: access token acquired; AADSTS check skipped" in
  (Verifier.outcome v = Verifier.Pending ∧ Verifier.success_marker e = true)
  ∧ Verifier.outcome (Verifier.step true v e) = Verifier.Resolved true
  ∧ Verifier.kills (Verifier.step true v e) = S (Verifier.kills v)
  ∧ Verifier.verifyTimeout (Verifier.step true v e) = None
  ∧ Verifier.authSuccess (Verifier.step true v e) = true
  ∧ Verifier.sent (Verifier.step true v e) = Verifier.sent v.
Proof.
  intros v e.
  assert (Verifier.outcome v = Verifier.Pending) as Hp by reflexivity.
  assert (Verifier.success_marker e = true) as Hm by reflexivity.
  split; [split; [exact Hp | exact Hm]|].
  exact (success_marker_resolves_true true e v Hp Hm).
Defined.

(** *** The buffers and the fallback scan *)

Lemma append_assoc (a b c : string) : (a +:+ b) +:+ c = a +:+ (b +:+ c).
Proof.
  induction a as [|x a IH]; [done|].
  change (String x ((a +:+ b) +:+ c) = String x (a +:+ (b +:+ c))).
  by f_equal.
Qed.

Lemma append_empty_r (a : string) : a +:+ "" = a.
Proof.
  induction a as [|x a IH]; [done|].
  change (String x (a +:+ "") = String x a). by f_equal.
Qed.

Section FallbackFacts.

Import Verifier.

Variable mainWindow : bool.

(** Chunks without a recognised marker only grow the two buffers. *)
Lemma run_quiet (history : list event) (v : vstate) :
  forallb quiet history = true →
  run mainWindow history v
  = {| spawned := spawned v;
       authOutput := authOutput v +:+ stdout_of history;
       authError := authError v +:+ stderr_of history;
       authSuccess := authSuccess v; authFailed := authFailed v;
       verifyTimeout := verifyTimeout v; kills := kills v;
       outcome := outcome v; sent := sent v |}.
Proof.
  revert v. induction history as [|e history IH]; intros v Hquiet.
  - simpl. rewrite !append_empty_r. by destruct v.
  - simpl in Hquiet. apply andb_true_iff in Hquiet as [He Hrest].
    change (run mainWindow (e :: history) v)
      with (run mainWindow history (step mainWindow v e)).
    rewrite (IH _ Hrest).
    destruct e as [output|output|code|]; simpl in He; try done; simpl.
    + unfold on_stdout. apply negb_true_iff in He. rewrite He. simpl.
      by rewrite append_assoc.
    + unfold on_stderr. apply andb_true_iff in He as [Hs Hf].
      apply negb_true_iff in Hs. apply negb_true_iff in Hf.
      unfold failure_marker in Hf. rewrite Hs, Hf. simpl.
      by rewrite append_assoc.
Qed.

Lemma run_snoc (history : list event) (e : event) (v : vstate) :
  run mainWindow (history ++ [e]) v
  = step mainWindow (run mainWindow history v) e.
Proof. unfold run. by rewrite fold_left_app. Qed.

(** The three inline scans of the source agree with [success_phrases]
    while no marker has been recognised. *)
Lemma fallback_step (e : event) (v : vstate) :
  authSuccess v = false → authFailed v = false →
  outcome v = Pending → is_Some (verifyTimeout v) →
  ambiguous_end e = true →
  let v' := step mainWindow v e in
  if success_phrases e (authOutput v) (authError v)
  then outcome v' = Resolved true ∧ sent v' = sent v ∧ kills v' = kills v
  else outcome v' = Resolved false
       ∧ sent v' = sent v ++ send mainWindow
                     (ApiError (failure_message e (authOutput v) (authError v)))
       ∧ kills v' = match e with Timeout => S (kills v) | _ => kills v end.
Proof.
  intros Hs Hf Hp [t Ht] Hamb.
  destruct e as [output|output|code|]; simpl in Hamb; try done; simpl.
  - unfold on_close. rewrite Hs, Hf.
    destruct code as [[|n|n]|]; simpl in Hamb; try done; simpl.
    + unfold exit_success_indicators.
      destruct (_ || _ || _ && _); simpl; by rewrite Hp.
    + unfold exit_success_indicators.
      destruct (_ || _ || _ && _); simpl; by rewrite Hp.
    + unfold killed_success_indicators. rewrite Hs. simpl.
      destruct (includes (authOutput v) "Authentication successful"),
        (includes (authOutput v) "Token acquired successfully"),
        (includes (authError v) "access token"),
        (includes (authOutput v) "Token" && includes (authOutput v) "success");
        simpl; by rewrite Hp.
  - unfold on_timeout. rewrite Ht.
    unfold timeout_success_indicators. simpl. rewrite Hs. simpl.
    destruct (_ || _ || _); simpl; by rewrite Hp.
Qed.

End FallbackFacts.

(** C6, as stated, fails: the verification process prints
    "Authentication failed" on [stdout], where no handler looks for it,
    and exits with code 1. The error reported is then the
    authentication-failure message and not a generic one; the same happens
    when the phrase arrives split over two chunks. *)
Lemma nonzero_exit_reports_authentication_failed :
  Verifier.sent
    (Verifier.verifyCredentials true Fixtures.fs_installed Fixtures.node
      Fixtures.creds
       [Verifier.Stdout "Authentication failed"; Verifier.Close (Some 1%Z)])
  = [ApiError "Authentication failed: Invalid client ID, client secret, or tenant ID."]
  ∧ Verifier.sent
      (Verifier.verifyCredentials true Fixtures.fs_installed Fixtures.node
      Fixtures.creds
         [Verifier.Stderr "Authentication fai"; Verifier.Stderr "led";
          Verifier.Close (Some 1%Z)])
    = [ApiError "Authentication failed: Invalid client ID, client secret, or tenant ID."]
  ∧ forallb Verifier.quiet
      [Verifier.Stderr "Authentication fai"; Verifier.Stderr "led"] = true.
Proof. vm_compute. done. Qed.

(** C6, amended: after output in which no marker was recognised, when
    the timer fires or the process closes with a code other than 0 (a
    number, or [null] for a kill), [verify] scans the whole of the two
    buffers for success phrases. If one is found it resolves [true] and
    reports nothing. Otherwise it resolves [false] and sends the renderer,
    when there is a window, one error: the timed-out message at the timer
    (which also kills the process), the interrupted message after a kill,
    and after a nonzero exit the verification-failed message or, when a
    buffer holds "Authentication failed", the authentication-failed
    message. All this is about a process that [spawn] returned; when
    [spawn] throws there is no process, the promise is rejected with the
    error and nothing is sent or killed. *)
Theorem ambiguous_end_scans_buffers
    (mainWindow : bool) (fs : filesystem) (node : runtime) (c : credentials)
    (apiPath : string) (history : list Verifier.event) (e : Verifier.event) :
  In apiPath (possibleApiPaths fs) → existsSync fs apiPath = true →
  forallb Verifier.quiet history = true →
  Verifier.ambiguous_end e = true →
  let v := Verifier.verifyCredentials mainWindow fs node c (history ++ [e]) in
  let out := Verifier.stdout_of history in
  let err := Verifier.stderr_of history in
  match spawnThrows node c with
  | Some error =>
      Verifier.outcome v = Verifier.Rejected error
      ∧ Verifier.sent v = []
      ∧ Verifier.kills v = 0
  | None =>
      if Verifier.success_phrases e out err
      then Verifier.outcome v = Verifier.Resolved true
           ∧ Verifier.sent v = []
           ∧ Verifier.kills v = 0
      else Verifier.outcome v = Verifier.Resolved false
           ∧ Verifier.sent v
             = send mainWindow (ApiError (Verifier.failure_message e out err))
           ∧ Verifier.kills v
             = match e with Verifier.Timeout => 1 | _ => 0 end
  end.
Proof.
  intros Hin Hex Hquiet Hamb.
  destruct (spawnThrows node c) as [error|] eqn:Hspawn.
  { by rewrite (verify_spawn_throws mainWindow fs node c apiPath error _
                  Hin Hex Hspawn). }
  destruct (start_spawns mainWindow fs node c apiPath Hin Hex Hspawn)
    as [p Hstart].
  unfold Verifier.verifyCredentials. rewrite Hstart. cbn [Verifier.spawned].
  rewrite run_snoc, (run_quiet mainWindow history _ Hquiet).
  cbn -[Verifier.step].
  match goal with |- context [Verifier.step _ ?v0 _] => set (v1 := v0) end.
  exact (fallback_step mainWindow e v1 eq_refl eq_refl eq_refl
           (ex_intro _ _ eq_refl) Hamb).
Qed.

Lemma ambiguous_end_scans_buffers_witness :
  let history :=
    [Verifier.Stdout "Token request sent"; Verifier.Stdout " with success"] in
  let v :=
    Verifier.verifyCredentials true Fixtures.fs_installed Fixtures.node
      Fixtures.creds
      (history ++ [Verifier.Close None]) in
  (In "api/api.py" (possibleApiPaths Fixtures.fs_installed)
   ∧ existsSync Fixtures.fs_installed "api/api.py" = true
   ∧ forallb Verifier.quiet history = true
   ∧ Verifier.ambiguous_end (Verifier.Close None) = true)
  ∧ Verifier.outcome v = Verifier.Resolved true
  ∧ Verifier.sent v = []
  ∧ Verifier.kills v = 0.
Proof.
  intros history v.
  assert (In "api/api.py" (possibleApiPaths Fixtures.fs_installed)) as Hin
    by (simpl; auto).
  assert (existsSync Fixtures.fs_installed "api/api.py" = true) as Hex
    by reflexivity.
  assert (forallb Verifier.quiet history = true) as Hq by reflexivity.
  assert (Verifier.ambiguous_end (Verifier.Close None) = true) as Ha
    by reflexivity.
  split; [repeat split; assumption|].
  exact (ambiguous_end_scans_buffers true Fixtures.fs_installed Fixtures.node
           Fixtures.creds "api/api.py" history (Verifier.Close None)
           Hin Hex Hq Ha).
Defined.

(** ** Output classifier *)

Section WorkerFacts.

Import Worker.

Variable mainWindow : bool.

(** One chunk: the port stays, [apiStarted] is raised by a chunk that
    announces readiness, and [apiErrors] grows by the chunk's entries. *)
Lemma on_data_closure (acc : closure * list ui_event) (c : chunk) :
  (on_data mainWindow acc c).1
  = {| port := port acc.1;
       apiStarted := apiStarted acc.1 || announces_ready c;
       apiErrors := apiErrors acc.1 ++ error_entries c |}.
Proof.
  destruct acc as [[p st errs] evs], c as [output|output];
    unfold on_data, on_stdout, on_stderr, announces_ready, error_entries,
      ready_marker, started, push; simpl.
  - destruct (includes output "Uvicorn running"
              || includes output "Application startup complete"),
      (includes output "Authentication failed" || includes output "Invalid client");
      simpl; rewrite ?orb_true_r, ?orb_false_r, ?app_nil_r; done.
  - rewrite (orb_comm (includes output "Uvicorn running")).
    destruct (startsWith output "INFO:"),
      (includes output "Application startup complete"
       || includes output "Uvicorn running"),
      (includes output "WARNING:"),
      (includes output "Error" || includes output "Exception"
       || includes output "Failed");
      simpl; rewrite ?orb_true_r, ?orb_false_r, ?app_nil_r; done.
Qed.

Lemma fold_on_data_closure (history : list chunk) (acc : closure * list ui_event) :
  (fold_left (on_data mainWindow) history acc).1
  = {| port := port acc.1;
       apiStarted := apiStarted acc.1 || existsb announces_ready history;
       apiErrors := apiErrors acc.1 ++ flat_map error_entries history |}.
Proof.
  revert acc. induction history as [|c history IH]; intros acc; simpl.
  - rewrite orb_false_r, app_nil_r. by destruct acc as [[] ?].
  - rewrite IH, on_data_closure. simpl. by rewrite orb_assoc, app_assoc.
Qed.

(** The closure of a worker after its output so far. *)
Lemma after_closure (p : Z) (history : list chunk) :
  (after mainWindow p history).1
  = {| port := p;
       apiStarted := existsb announces_ready history;
       apiErrors := flat_map error_entries history |}.
Proof. unfold after. by rewrite fold_on_data_closure. Qed.

End WorkerFacts.

(** C5, as stated, fails, in two ways. A worker that wrote an error line
    and then exits with code 0 before any ready marker is not reported at
    all. And after the line "Authentication failed" on [stdout] and exit
    code 1, no [stderr] line was collected, yet the message is not the one
    with the exit code: it joins the entry the [stdout] handler recorded. *)
Lemma close_report_depends_on_code_and_stdout :
  let quiet_exit := Worker.after true 8000 [Worker.Stderr "Traceback: boom"] in
  let refused := Worker.after true 8000 [Worker.Stdout "Authentication failed"] in
  (Worker.apiStarted quiet_exit.1 = false
   ∧ Worker.apiErrors quiet_exit.1 = ["Traceback: boom"]
   ∧ Worker.on_close true (Some 0%Z) quiet_exit.1 = [])
  ∧ (Worker.apiStarted refused.1 = false
     ∧ Worker.stderr_error_lines [Worker.Stdout "Authentication failed"] = []
     ∧ Worker.on_close true (Some 1%Z) refused.1
       = [ApiError "API failed to start: Authentication failed: Invalid credentials"]).
Proof. vm_compute. done. Qed.

(** C5, amended: whenever the worker closes with a code other than 0 (a
    number, or [null] after a signal) and none of its chunks announced
    readiness, the supervisor sends the renderer, when there is a window,
    one error. Its message joins with ", " the entries collected so far:
    the [stderr] chunks that neither start with "INFO:" nor contain
    "WARNING:", and one fixed entry for each [stdout] chunk with an
    authentication-failure phrase. When nothing was collected the message
    reports the exit code. *)
Theorem close_before_ready_reports_collected_errors
    (mainWindow : bool) (p : Z) (history : list Worker.chunk) (code : option Z) :
  existsb Worker.announces_ready history = false →
  is_zero code = false →
  Worker.on_close mainWindow code (Worker.after mainWindow p history).1
  = send mainWindow
      (ApiError
         match flat_map Worker.error_entries history with
         | [] => "API process exited with code " +:+ show_code code
         | errors => "API failed to start: " +:+ join ", " errors
         end).
Proof.
  intros Hready Hcode. rewrite after_closure.
  unfold Worker.on_close. cbn [Worker.apiStarted Worker.apiErrors].
  rewrite Hready, Hcode. simpl.
  by destruct (flat_map Worker.error_entries history).
Qed.

Lemma close_before_ready_reports_collected_errors_witness :
  let history :=
    [Worker.Stderr "INFO: Started server process";
     Worker.Stderr "ModuleNotFoundError: No module named 'msal'";
     Worker.Stderr "WARNING: retrying";
     Worker.Stderr "Failed to import api"] in
  (existsb Worker.announces_ready history = false
   ∧ is_zero (Some 1%Z) = false)
  ∧ Worker.on_close true (Some 1%Z) (Worker.after true 8000 history).1
    = [ApiError
         "API failed to start: ModuleNotFoundError: No module named 'msal', Failed to import api"].
Proof.
  intros history.
  assert (existsb Worker.announces_ready history = false) as Hr by reflexivity.
  assert (is_zero (Some 1%Z) = false) as Hc by reflexivity.
  split; [split; [exact Hr | exact Hc]|].
  exact (close_before_ready_reports_collected_errors true 8000 history
           (Some 1%Z) Hr Hc).
Defined.

(** C7: a [stderr] chunk that starts with "INFO:" is never taken as an
    error. It adds nothing to the collected error lines and no error
    event is sent. It is still searched for the ready marker: with one,
    the worker counts as started and the renderer is sent [api-ready] with
    the port; without one, nothing changes and nothing is sent. *)
Theorem info_line_on_stderr_is_not_an_error
    (mainWindow : bool) (output : string) (w : Worker.closure) :
  startsWith output "INFO:" = true →
  let r := Worker.on_stderr mainWindow output w in
  Worker.apiErrors r.1 = Worker.apiErrors w
  ∧ Worker.error_entries (Worker.Stderr output) = []
  ∧ (∀ message, ApiError message ∉ r.2)
  ∧ Worker.apiStarted r.1 = Worker.apiStarted w || Worker.ready_marker output
  ∧ r.2 = (if Worker.ready_marker output
           then send mainWindow (ApiReady (Worker.port w))
           else [])
  ∧ (Worker.ready_marker output = false → r.1 = w).
Proof.
  intros Hinfo. unfold Worker.on_stderr, Worker.error_entries, Worker.ready_marker.
  rewrite Hinfo, (orb_comm (includes output "Uvicorn running")). simpl.
  destruct (includes output "Application startup complete"
            || includes output "Uvicorn running"); simpl.
  - rewrite orb_true_r. repeat split; try done.
    intros message Hin. destruct mainWindow; simpl in Hin.
    + by apply list_elem_of_singleton in Hin.
    + by apply elem_of_nil in Hin.
  - rewrite orb_false_r. repeat split; try done.
    intros message Hin. by apply elem_of_nil in Hin.
Qed.

Lemma info_line_on_stderr_is_not_an_error_witness :
  let output := "INFO: 127.0.0.1 - GET /health" in
  let r := Worker.on_stderr true output Fixtures.fresh_closure in
  startsWith output "INFO:" = true
  ∧ Worker.apiErrors r.1 = Worker.apiErrors Fixtures.fresh_closure
  ∧ Worker.error_entries (Worker.Stderr output) = []
  ∧ (∀ message, ApiError message ∉ r.2)
  ∧ Worker.apiStarted r.1
    = Worker.apiStarted Fixtures.fresh_closure || Worker.ready_marker output
  ∧ r.2 = (if Worker.ready_marker output
           then send true (ApiReady (Worker.port Fixtures.fresh_closure))
           else [])
  ∧ (Worker.ready_marker output = false → r.1 = Fixtures.fresh_closure).
Proof.
  intros output r.
  assert (startsWith output "INFO:" = true) as Hinfo by reflexivity.
  split; [exact Hinfo|].
  exact (info_line_on_stderr_is_not_an_error true output
           Fixtures.fresh_closure Hinfo).
Defined.

(** ** Session orchestrator *)

Section SessionFacts.

Import Main.

Lemma truthy_blank (field : option string) : blank field → truthy field = false.
Proof. by intros [-> | ->]. Qed.

(** Liveness only depends on the process table. *)
Lemma live_processes (s s' : state) (pid : nat) :
  processes s' = processes s → live s' pid = live s pid.
Proof. unfold live. by intros ->. Qed.

Lemma live_kill (s : state) (pid q : nat) :
  live (kill pid s) q = live s q && negb (Nat.eqb q pid).
Proof.
  unfold live, kill. simpl.
  destruct (Nat.eqb_spec q pid) as [->|Hne].
  - rewrite list_lookup_alter_eq.
    destruct (processes s !! pid) as [[e w []]|]; simpl; done.
  - rewrite list_lookup_alter_ne by done. by rewrite andb_true_r.
Qed.

Lemma live_lt (s : state) (pid : nat) :
  live s pid = true → pid < length (processes s).
Proof.
  unfold live. destruct (processes s !! pid) eqn:H; [|done].
  intros _. by apply lookup_lt_Some in H.
Qed.

(** No worker is live. *)
Lemma kill_existing_tracked (s : state) :
  tracked s →
  pythonProcess (kill_existing s) = None
  ∧ ∀ pid, live (kill_existing s) pid = false.
Proof.
  intros Htracked. unfold kill_existing.
  destruct (pythonProcess s) as [h|] eqn:Hh.
  - split; [done|]. intros pid.
    rewrite (live_processes (kill h s)) by done. rewrite live_kill.
    destruct (live s pid) eqn:Hlive; [|done].
    apply Htracked in Hlive. rewrite Hh in Hlive. injection Hlive as ->.
    by rewrite Nat.eqb_refl.
  - split; [done|]. intros pid.
    destruct (live s pid) eqn:Hlive; [|done].
    apply Htracked in Hlive. congruence.
Qed.

(** The handle is stopped before anything else happens. *)
Lemma kill_existing_stops_handle (s : state) (h : nat) :
  pythonProcess s = Some h →
  live (kill_existing s) h = false ∧ pythonProcess (kill_existing s) = None.
Proof.
  intros Hh. unfold kill_existing. rewrite Hh. split; [|done].
  rewrite (live_processes (kill h s)) by done.
  by rewrite live_kill, Nat.eqb_refl, andb_false_r.
Qed.

Lemma spawn_tracked (c : credentials) (p : Z) (s : state) :
  (∀ pid, live s pid = false) → tracked (spawn c p s).
Proof.
  intros Hnone pid Hlive. unfold spawn in *. simpl in *.
  unfold live in Hlive. simpl in Hlive.
  destruct (decide (pid < length (processes s))) as [Hlt|Hge].
  - rewrite lookup_app_l in Hlive by done.
    specialize (Hnone pid). unfold live in Hnone. by rewrite Hnone in Hlive.
  - destruct (decide (pid = length (processes s))) as [->|Hne]; [done|].
    rewrite lookup_ge_None_2 in Hlive; [done|].
    rewrite length_app. simpl. lia.
Qed.

Lemma no_live_tracked (s : state) :
  (∀ pid, live s pid = false) → tracked s.
Proof. intros Hnone pid Hlive. by rewrite Hnone in Hlive. Qed.

(** [startPythonApi] keeps every live worker under the handle: it stops
    the one it holds before it spawns. *)
Lemma startPythonApi_tracked (fs : filesystem) (node : runtime) (p : Z)
    (s : state) :
  tracked s → tracked (startPythonApi fs node p s).1.
Proof.
  intros Htracked. unfold startPythonApi.
  destruct (kill_existing_tracked s Htracked) as [Hnull Hnone].
  destruct (findApiPath _ fs) as [msgs [apiPath|err]]; simpl.
  - destruct (stored_credentials (kill_existing s)) as [c|]; simpl.
    + destruct (spawnThrows node c); simpl.
      * by apply no_live_tracked.
      * by apply spawn_tracked.
    + by apply no_live_tracked.
  - by apply no_live_tracked.
Qed.

Lemma login_tracked (w : world) (arg : argument) (s : state) :
  tracked s → tracked (login w arg s).1.
Proof.
  intros Htracked. unfold login.
  destruct arg as [| |c]; [done | done |].
  destruct (_ || _ || _); [done|].
  destruct (kill_existing_tracked s Htracked) as [Hnull Hnone].
  destruct (Verifier.outcome _) as [|[]|]; simpl;
    try (by apply no_live_tracked).
  destruct (PortAllocator.found _) as [portToUse|]; simpl;
    [|by apply no_live_tracked].
  match goal with
  | |- tracked (set_apiPort _ (store_set _ _ (startPythonApi ?f ?n ?p ?s0).1)) =>
      pose proof (startPythonApi_tracked f n p s0) as Hstart
  end.
  intros pid Hlive. apply Hstart; [|exact Hlive].
  by apply no_live_tracked.
Qed.

Lemma live_workers_none (s : state) :
  (∀ pid, live s pid = false) → live_workers s = [].
Proof.
  intros Hnone. unfold live_workers.
  rewrite (filter_ext (live s) (fun _ => false)) by exact Hnone.
  apply filter_false.
Qed.

(** The state [logout] leaves behind. *)
Lemma logout_state (s : state) :
  (logout s).2 = {| success := true; message := None |}
  ∧ store (logout s).1
    = <["isLoggedIn" := VBool false]> (delete "graphCredentials" (store s))
  ∧ pythonProcess (logout s).1 = None
  ∧ processes (logout s).1 = processes (kill_existing s).
Proof.
  unfold logout, kill_existing. simpl.
  destruct (pythonProcess s) as [h|] eqn:Hh; simpl;
    destruct (development s && nextProcess s); simpl; rewrite ?Hh; done.
Qed.

(** What [logout] does in every state: the result, the store, the handle
    and the worker the handle referred to; and, when every live worker was
    under the handle, no worker is left live. *)
Lemma logout_resets_session (s : state) :
  (logout s).2 = {| success := true; message := None |}
  ∧ store (logout s).1 !! "graphCredentials" = None
  ∧ store (logout s).1 !! "isLoggedIn" = Some (VBool false)
  ∧ pythonProcess (logout s).1 = None
  ∧ (∀ h, pythonProcess s = Some h → live (logout s).1 h = false)
  ∧ (tracked s → live_workers (logout s).1 = []).
Proof.
  destruct (logout_state s) as (Hres & Hstore & Hnull & Hprocs).
  split; [done|]. rewrite Hstore.
  split; [by simplify_map_eq|]. split; [by simplify_map_eq|].
  split; [done|]. split.
  - intros h Hh. rewrite (live_processes (kill_existing s)) by done.
    by apply kill_existing_stops_handle.
  - intros Htracked. apply live_workers_none. intros pid.
    rewrite (live_processes (kill_existing s)) by done.
    by apply kill_existing_tracked.
Qed.

Lemma logout_tracked (s : state) : tracked s → tracked (logout s).1.
Proof.
  intros Htracked. apply no_live_tracked. intros pid.
  rewrite (live_processes (kill_existing s))
    by apply (logout_state s).
  by apply kill_existing_tracked.
Qed.

(** The [close] event of the worker under the handle keeps the others
    tracked as well. *)
Lemma worker_close_tracked (h : nat) (code : option Z) (s : state) :
  tracked s → pythonProcess s = Some h → tracked (worker_close h code s).
Proof.
  intros Htracked Hh. unfold worker_close.
  destruct (processes s !! h) as [[e w st]|] eqn:Hlook; [|done].
  destruct st; try done.
  all: apply no_live_tracked; intros pid; unfold live; simpl.
  all: destruct (decide (pid = h)) as [->|Hne];
    [rewrite list_lookup_insert_eq by (by eapply lookup_lt_Some); done|].
  all: rewrite list_lookup_insert_ne by done.
  all: destruct (live s pid) eqn:Hlive;
    [apply Htracked in Hlive; congruence | exact Hlive].
Qed.

End SessionFacts.

(** C8: on every start of the host, whatever the previous run left in
    the store, the first thing [app.whenReady] does is to set [isLoggedIn]
    to [false] and delete the stored credentials. This happens while no
    window exists, so before a renderer can call [login]; and when the
    callback is over the store is still reset, no handle is held and no
    worker has been spawned. *)
Theorem startup_resets_session
    (persisted : gmap string Main.value) (dev : bool) (d : Main.dev_server) :
  let s0 := Main.fresh persisted dev in
  let s1 := Main.startup_reset s0 in
  let s2 := Main.whenReady d s0 in
  (Main.mainWindow s1 = false
   ∧ Main.store s1 !! "isLoggedIn" = Some (Main.VBool false)
   ∧ Main.store s1 !! "graphCredentials" = None)
  ∧ (Main.store s2 !! "isLoggedIn" = Some (Main.VBool false)
     ∧ Main.store s2 !! "graphCredentials" = None
     ∧ Main.pythonProcess s2 = None
     ∧ Main.processes s2 = []).
Proof.
  intros s0 s1 s2. split.
  - subst s1 s0. unfold Main.startup_reset, Main.kill_existing. simpl.
    split; [done|]. split; by simplify_map_eq.
  - subst s2 s0.
    unfold Main.whenReady, Main.startup_reset, Main.kill_existing,
      Main.startNextDevServer.
    simpl. destruct dev, (Main.detectedPort d), (Main.ready d), (Main.closed d); simpl;
      (split; [by simplify_map_eq|]); (split; [by simplify_map_eq|]); done.
Qed.

(** C10: when [clientId], [clientSecret] or [tenantId] is missing or
    empty, [login] returns [{success: false, message: 'All fields are
    required'}] and the whole state is as before: nothing was spawned,
    no worker was killed, the store and the handle are untouched and
    nothing was sent to the renderer. *)
Theorem login_rejects_blank_fields
    (w : Main.world) (c : credentials) (s : Main.state) :
  Main.blank (clientId c) ∨ Main.blank (clientSecret c)
  ∨ Main.blank (tenantId c) →
  Main.login w c s
  = (s, Some {| Main.success := false;
                Main.message := Some "All fields are required" |}).
Proof.
  intros Hblank. unfold Main.login.
  destruct Hblank as [H | [H | H]]; apply truthy_blank in H; rewrite H; simpl;
    rewrite ?orb_true_r; done.
Qed.

Lemma login_rejects_blank_fields_witness :
  let s := Main.run [Main.Login Fixtures.accepting Fixtures.creds] Fixtures.booted in
  (Main.blank (clientId Fixtures.creds_no_secret)
   ∨ Main.blank (clientSecret Fixtures.creds_no_secret)
   ∨ Main.blank (tenantId Fixtures.creds_no_secret))
  ∧ Main.login Fixtures.accepting Fixtures.creds_no_secret s
    = (s, Some {| Main.success := false;
                  Main.message := Some "All fields are required" |}).
Proof.
  intros s.
  assert (Main.blank (clientId Fixtures.creds_no_secret)
          ∨ Main.blank (clientSecret Fixtures.creds_no_secret)
          ∨ Main.blank (tenantId Fixtures.creds_no_secret)) as Hblank
    by (right; left; right; reflexivity).
  split; [exact Hblank|].
  exact (login_rejects_blank_fields Fixtures.accepting
           Fixtures.creds_no_secret s Hblank).
Defined.

(** C4 at its failing input. After two logins worker 0 has been killed
    and worker 1 runs under the handle. The [close] event of worker 0 then
    arrives, and its handler sets [pythonProcess] to [null] although the
    handle by now refers to worker 1. A third login finds no handle to
    stop and spawns worker 2 while worker 1 is still running. *)
Theorem late_close_leads_to_two_live_workers :
  let before := Main.run (take 2 Fixtures.late_close) Fixtures.booted in
  let s := Main.run Fixtures.late_close Fixtures.booted in
  let s' := Main.step s (Main.Login Fixtures.accepting Fixtures.creds) in
  (Main.pythonProcess before = Some 1 ∧ Main.live_workers before = [1])
  ∧ (Main.pythonProcess s = None ∧ Main.live_workers s = [1])
  ∧ (Main.pythonProcess s' = Some 2 ∧ Main.live_workers s' = [1; 2]).
Proof. vm_compute. done. Qed.

(** C9 at its failing input. In the state reached above, where worker 1
    runs but the handle has been reset by the late [close] event of worker
    0, [logout] clears the store and resolves [{success: true}], but it
    finds no handle and leaves worker 1 running. *)
Theorem logout_leaves_untracked_worker_running :
  let s := Main.run Fixtures.late_close Fixtures.booted in
  let r := Main.logout s in
  r.2 = {| Main.success := true; Main.message := None |}
  ∧ Main.store r.1 !! "graphCredentials" = None
  ∧ Main.store r.1 !! "isLoggedIn" = Some (Main.VBool false)
  ∧ Main.pythonProcess r.1 = None
  ∧ Main.live_workers r.1 = [1].
Proof. vm_compute. done. Qed.

(** * Further properties *)

(** ** Port allocator: which port is returned *)

Section PortAllocatorOrder.

Import PortAllocator.

Variable bindable : Z → bool.

Lemma scan_least (n : nat) (port : Z) (failedPorts : gset Z) (p : Z) :
  (∀ x, x ∈ failedPorts → (x < port)%Z) →
  scan bindable n port failedPorts = Some p →
  ∀ x, (port ≤ x < p)%Z → bindable x = false.
Proof.
  revert port failedPorts.
  induction n as [|n IH]; intros port failedPorts Hpast; simpl; [done|].
  destruct (decide (port ∈ failedPorts)) as [Hin|_].
  - apply Hpast in Hin. lia.
  - destruct (bindable port) eqn:Hb.
    + intros [= <-] x Hx. lia.
    + intros Hscan x Hx.
      destruct (decide (x = port)) as [->|Hne]; [done|].
      apply (IH (port + 1)%Z ({[port]} ∪ failedPorts)); [|done|lia].
      intros y Hy. apply elem_of_union in Hy as [Hy|Hy].
      * apply elem_of_singleton in Hy. lia.
      * apply Hpast in Hy. lia.
Qed.

Lemma scan_least_empty (n : nat) (port p : Z) :
  scan bindable n port ∅ = Some p →
  ∀ x, (port ≤ x < p)%Z → bindable x = false.
Proof. apply scan_least. intros x Hx. by apply elem_of_empty in Hx. Qed.

Lemma scan_none_exhausted (n : nat) (port : Z) (x : Z) :
  scan bindable n port ∅ = None →
  (port ≤ x < port + Z.of_nat n)%Z → bindable x = false.
Proof.
  intros Hscan Hx. destruct (bindable x) eqn:Hb; [|done].
  assert (is_Some (scan bindable n port ∅)) as [p Hp].
  { apply (scan_complete _ _ _ _ x); [set_solver | done | done]. }
  congruence.
Qed.

Lemma findAvailablePort_least (n : nat) (startPort endPort q : Z) :
  (startPort ≤ endPort + 1)%Z →
  bindable q = true → (startPort ≤ q)%Z → (q ≤ endPort + 100 * Z.of_nat n)%Z →
  ∃ p, found (findAvailablePort bindable (S n) startPort endPort) = Some p
       ∧ bindable p = true
       ∧ (startPort ≤ p ≤ q)%Z
       ∧ ∀ x, (startPort ≤ x < p)%Z → bindable x = false.
Proof.
  revert startPort endPort.
  induction n as [|n IH]; intros startPort endPort Horder Hq Hlo Hhi;
    cbn [findAvailablePort];
    destruct (scan bindable _ startPort ∅) as [port|] eqn:Hscan; simpl.
  - pose proof (scan_sound _ _ _ _ _ Hscan) as [Hb Hrange].
    assert (∀ x, (startPort ≤ x < port)%Z → bindable x = false) as Hleast
      by (apply (scan_least_empty _ _ _ Hscan)).
    exists port. repeat split; try done; try lia.
    destruct (decide (q < port)%Z) as [Hlt|]; [|lia].
    rewrite Hleast in Hq by lia. done.
  - rewrite (scan_none_exhausted _ _ q Hscan) in Hq by lia. done.
  - pose proof (scan_sound _ _ _ _ _ Hscan) as [Hb Hrange].
    assert (∀ x, (startPort ≤ x < port)%Z → bindable x = false) as Hleast
      by (apply (scan_least_empty _ _ _ Hscan)).
    exists port. repeat split; try done; try lia.
    destruct (decide (q < port)%Z) as [Hlt|]; [|lia].
    rewrite Hleast in Hq by lia. done.
  - assert (∀ x, (startPort ≤ x ≤ endPort)%Z → bindable x = false) as Hnone.
    { intros x Hx. apply (scan_none_exhausted _ _ x Hscan). lia. }
    destruct (decide (q ≤ endPort)%Z) as [Hin|Hout].
    { rewrite Hnone in Hq by lia. done. }
    destruct (IH (endPort + 1)%Z (endPort + 100)%Z) as (p & Hp & Hb & Hr & Hl);
      [lia | done | lia | lia |].
    exists p. repeat split; try done; try lia.
    intros x Hx. destruct (decide (x ≤ endPort)%Z).
    + apply Hnone. lia.
    + apply Hl. lia.
Qed.

Lemma warnings_exhausted (fuel : nat) (startPort endPort lo hi x : Z) :
  In (lo, hi) (warnings (findAvailablePort bindable fuel startPort endPort)) →
  (lo ≤ x ≤ hi)%Z → bindable x = false.
Proof.
  revert startPort endPort.
  induction fuel as [|fuel IH]; intros startPort endPort; simpl; [done|].
  destruct (scan bindable _ startPort ∅) as [port|] eqn:Hscan; simpl; [done|].
  intros [[= <- <-] | Hin] Hx.
  - apply (scan_none_exhausted _ _ x Hscan). lia.
  - by apply (IH _ _ Hin).
Qed.

End PortAllocatorOrder.

(** X1: started on a range that is not inverted, the allocator returns
    the lowest port at or above [startPort] that can be bound, as soon as
    it is given enough calls to reach it: one call more than the number
    of hundreds between [endPort] and a bindable port [q]. *)
Theorem allocator_returns_lowest_free_port
    (bindable : Z → bool) (n : nat) (startPort endPort q : Z) :
  (startPort ≤ endPort + 1)%Z →
  bindable q = true → (startPort ≤ q)%Z → (q ≤ endPort + 100 * Z.of_nat n)%Z →
  ∃ p,
    PortAllocator.found
      (PortAllocator.findAvailablePort bindable (S n) startPort endPort) = Some p
    ∧ bindable p = true
    ∧ (startPort ≤ p ≤ q)%Z
    ∧ ∀ x, (startPort ≤ x < p)%Z → bindable x = false.
Proof. apply findAvailablePort_least. Qed.

Lemma allocator_returns_lowest_free_port_witness :
  ((8000 ≤ 8100 + 1)%Z
   ∧ Fixtures.only_8201 8201 = true
   ∧ (8000 ≤ 8201)%Z
   ∧ (8201 ≤ 8100 + 100 * Z.of_nat 2)%Z)
  ∧ ∃ p,
      PortAllocator.found
        (PortAllocator.findAvailablePort Fixtures.only_8201 3 8000 8100) = Some p
      ∧ Fixtures.only_8201 p = true
      ∧ (8000 ≤ p ≤ 8201)%Z
      ∧ ∀ x, (8000 ≤ x < p)%Z → Fixtures.only_8201 x = false.
Proof.
  assert (8000 ≤ 8100 + 1)%Z as H1 by lia.
  assert (Fixtures.only_8201 8201 = true) as H2 by reflexivity.
  assert (8000 ≤ 8201)%Z as H3 by lia.
  assert (8201 ≤ 8100 + 100 * Z.of_nat 2)%Z as H4 by lia.
  split; [repeat split; assumption|].
  exact (allocator_returns_lowest_free_port Fixtures.only_8201 2 8000 8100 8201
           H1 H2 H3 H4).
Defined.

(** X2: a range the allocator reports as exhausted holds no port that
    can be bound. *)
Theorem warned_ranges_hold_no_free_port
    (bindable : Z → bool) (fuel : nat) (startPort endPort lo hi x : Z) :
  In (lo, hi)
    (PortAllocator.warnings
       (PortAllocator.findAvailablePort bindable fuel startPort endPort)) →
  (lo ≤ x ≤ hi)%Z →
  bindable x = false.
Proof. apply warnings_exhausted. Qed.

Lemma warned_ranges_hold_no_free_port_witness :
  (In (8101, 8200)%Z
     (PortAllocator.warnings
        (PortAllocator.findAvailablePort Fixtures.only_8201 3 8000 8100))
   ∧ (8101 ≤ 8150 ≤ 8200)%Z)
  ∧ Fixtures.only_8201 8150 = false.
Proof.
  assert (In (8101, 8200)%Z
            (PortAllocator.warnings
               (PortAllocator.findAvailablePort Fixtures.only_8201 3 8000 8100)))
    as Hin by (vm_compute; auto).
  assert (8101 ≤ 8150 ≤ 8200)%Z as Hx by lia.
  split; [split; assumption|].
  exact (warned_ranges_hold_no_free_port Fixtures.only_8201 3 8000 8100
           8101 8200 8150 Hin Hx).
Defined.

(** ** Credential verifier: failure markers, a clean exit, finality *)

Section VerifierMore.

Import Verifier.

Variable mainWindow : bool.

Lemma step_keeps_resolved (v : vstate) (e : event) (b : bool) :
  outcome v = Resolved b → outcome (step mainWindow v e) = Resolved b.
Proof.
  intros Hb. destruct (step_effect mainWindow v e) as [_ [-> | [b' ->]]];
    by rewrite Hb.
Qed.

Lemma run_keeps_resolved (trace : list event) (v : vstate) (b : bool) :
  outcome v = Resolved b → outcome (run mainWindow trace v) = Resolved b.
Proof.
  revert v. induction trace as [|e trace IH]; intros v Hb; [done|].
  apply IH. by apply step_keeps_resolved.
Qed.

Lemma run_app (first rest : list event) (v : vstate) :
  run mainWindow (first ++ rest) v
  = run mainWindow rest (run mainWindow first v).
Proof. unfold run. apply fold_left_app. Qed.

(** The state after output without a recognised marker. *)
Lemma verify_after_quiet (fs : filesystem) (node : runtime) (c : credentials)
    (apiPath : string) (history rest : list event) :
  In apiPath (possibleApiPaths fs) → existsSync fs apiPath = true →
  spawnThrows node c = None →
  forallb quiet history = true →
  ∃ p,
    verifyCredentials mainWindow fs node c (history ++ rest)
    = run mainWindow rest
        {| spawned := Some (p, c);
           authOutput := stdout_of history; authError := stderr_of history;
           authSuccess := false; authFailed := false;
           verifyTimeout := Some 15000%Z; kills := 0; outcome := Pending;
           sent := [] |}.
Proof.
  intros Hin Hex Hspawn Hquiet.
  destruct (start_spawns mainWindow fs node c apiPath Hin Hex Hspawn)
    as [p Hstart].
  exists p. unfold verifyCredentials. rewrite Hstart. cbn [spawned].
  by rewrite run_app, (run_quiet mainWindow history _ Hquiet).
Qed.

End VerifierMore.

(** X3: while the promise is pending, a [stderr] chunk with a failure
    marker ("Authentication failed", "Invalid client" or "AADSTS") and
    without the success marker resolves it to [false] at once, clears the
    timer, kills the verification process and sends the renderer the
    authentication-failed message. The [close] event that follows, with
    whatever code, changes neither the result nor what was sent. *)
Theorem failure_marker_resolves_false
    (mainWindow : bool) (output : string) (v : Verifier.vstate) :
  Verifier.outcome v = Verifier.Pending →
  Verifier.success_marker (Verifier.Stderr output) = false →
  Verifier.failure_marker output = true →
  let v' := Verifier.on_stderr mainWindow output v in
  Verifier.outcome v' = Verifier.Resolved false
  ∧ Verifier.kills v' = S (Verifier.kills v)
  ∧ Verifier.verifyTimeout v' = None
  ∧ Verifier.sent v'
    = Verifier.sent v ++ send mainWindow (ApiError Verifier.msg_auth_failed)
  ∧ ∀ code,
      Verifier.outcome (Verifier.on_close mainWindow code v')
      = Verifier.Resolved false
      ∧ Verifier.sent (Verifier.on_close mainWindow code v') = Verifier.sent v'.
Proof.
  intros Hpending Hsuccess Hfailure. simpl in Hsuccess.
  unfold Verifier.failure_marker in Hfailure.
  unfold Verifier.on_stderr. rewrite Hsuccess, Hfailure. simpl.
  rewrite Hpending. simpl. repeat split; done.
Qed.

Lemma failure_marker_resolves_false_witness :
  let v := Verifier.start true Fixtures.fs_installed Fixtures.node Fixtures.creds in
  let output := "AADSTS700016: Invalid client" in
  let v' := Verifier.on_stderr true output v in
  (Verifier.outcome v = Verifier.Pending
   ∧ Verifier.success_marker (Verifier.Stderr output) = false
   ∧ Verifier.failure_marker output = true)
  ∧ Verifier.outcome v' = Verifier.Resolved false
  ∧ Verifier.kills v' = S (Verifier.kills v)
  ∧ Verifier.verifyTimeout v' = None
  ∧ Verifier.sent v'
    = Verifier.sent v ++ send true (ApiError Verifier.msg_auth_failed)
  ∧ ∀ code,
      Verifier.outcome (Verifier.on_close true code v') = Verifier.Resolved false
      ∧ Verifier.sent (Verifier.on_close true code v') = Verifier.sent v'.
Proof.
  intros v output v'.
  assert (Verifier.outcome v = Verifier.Pending) as H1 by reflexivity.
  assert (Verifier.success_marker (Verifier.Stderr output) = false) as H2
    by reflexivity.
  assert (Verifier.failure_marker output = true) as H3 by reflexivity.
  split; [repeat split; assumption|].
  exact (failure_marker_resolves_false true output v H1 H2 H3).
Defined.

(** X4: when the verification process, after output without a recognised
    marker, exits with code 0, [verify] resolves [true]; nothing is sent
    and nothing is killed. The 15 s timer is still armed afterwards: the
    [close] handler does not clear it. (When [spawn] throws there is no
    process: the promise is rejected and no timer is armed.) *)
Theorem clean_exit_resolves_true
    (mainWindow : bool) (fs : filesystem) (node : runtime) (c : credentials)
    (apiPath : string) (history : list Verifier.event) :
  In apiPath (possibleApiPaths fs) → existsSync fs apiPath = true →
  forallb Verifier.quiet history = true →
  let v :=
    Verifier.verifyCredentials mainWindow fs node c
      (history ++ [Verifier.Close (Some 0%Z)]) in
  match spawnThrows node c with
  | Some error =>
      Verifier.outcome v = Verifier.Rejected error
      ∧ Verifier.sent v = []
      ∧ Verifier.kills v = 0
      ∧ Verifier.verifyTimeout v = None
  | None =>
      Verifier.outcome v = Verifier.Resolved true
      ∧ Verifier.sent v = []
      ∧ Verifier.kills v = 0
      ∧ Verifier.verifyTimeout v = Some 15000%Z
  end.
Proof.
  intros Hin Hex Hquiet.
  destruct (spawnThrows node c) as [error|] eqn:Hspawn.
  { by rewrite (verify_spawn_throws mainWindow fs node c apiPath error _
                  Hin Hex Hspawn). }
  destruct (verify_after_quiet mainWindow fs node c apiPath history
              [Verifier.Close (Some 0%Z)] Hin Hex Hspawn Hquiet) as [p ->].
  done.
Qed.

Lemma clean_exit_resolves_true_witness :
  let history := [Verifier.Stdout "Checking credentials"] in
  let v :=
    Verifier.verifyCredentials true Fixtures.fs_installed Fixtures.node
      Fixtures.creds
      (history ++ [Verifier.Close (Some 0%Z)]) in
  (In "api/api.py" (possibleApiPaths Fixtures.fs_installed)
   ∧ existsSync Fixtures.fs_installed "api/api.py" = true
   ∧ forallb Verifier.quiet history = true)
  ∧ Verifier.outcome v = Verifier.Resolved true
  ∧ Verifier.sent v = []
  ∧ Verifier.kills v = 0
  ∧ Verifier.verifyTimeout v = Some 15000%Z.
Proof.
  intros history v.
  assert (In "api/api.py" (possibleApiPaths Fixtures.fs_installed)) as Hin
    by (simpl; auto).
  assert (existsSync Fixtures.fs_installed "api/api.py" = true) as Hex
    by reflexivity.
  assert (forallb Verifier.quiet history = true) as Hq by reflexivity.
  split; [repeat split; assumption|].
  exact (clean_exit_resolves_true true Fixtures.fs_installed Fixtures.node
           Fixtures.creds "api/api.py" history Hin Hex Hq).
Defined.

(** X5: after such a clean exit the timer still fires. When the buffers
    hold none of the success phrases the timer looks for, its callback
    kills the process that has already exited and sends the renderer the
    timed-out error, although [verify] has resolved [true] and stays so.
    (When [spawn] throws there is no timer, and nothing is sent.) *)
Theorem timer_fires_after_clean_exit
    (mainWindow : bool) (fs : filesystem) (node : runtime) (c : credentials)
    (apiPath : string) (history : list Verifier.event) :
  In apiPath (possibleApiPaths fs) → existsSync fs apiPath = true →
  forallb Verifier.quiet history = true →
  Verifier.success_phrases Verifier.Timeout
    (Verifier.stdout_of history) (Verifier.stderr_of history) = false →
  let v :=
    Verifier.verifyCredentials mainWindow fs node c
      (history ++ [Verifier.Close (Some 0%Z); Verifier.Timeout]) in
  match spawnThrows node c with
  | Some error =>
      Verifier.outcome v = Verifier.Rejected error
      ∧ Verifier.sent v = []
      ∧ Verifier.kills v = 0
  | None =>
      Verifier.outcome v = Verifier.Resolved true
      ∧ Verifier.sent v = send mainWindow (ApiError Verifier.msg_timed_out)
      ∧ Verifier.kills v = 1
  end.
Proof.
  intros Hin Hex Hquiet Hnone.
  destruct (spawnThrows node c) as [error|] eqn:Hspawn.
  { by rewrite (verify_spawn_throws mainWindow fs node c apiPath error _
                  Hin Hex Hspawn). }
  destruct (verify_after_quiet mainWindow fs node c apiPath history
              [Verifier.Close (Some 0%Z); Verifier.Timeout]
              Hin Hex Hspawn Hquiet)
    as [p ->].
  simpl in Hnone. cbn -[includes send].
  unfold Verifier.on_timeout, Verifier.timeout_success_indicators.
  cbn -[includes send]. rewrite Hnone. done.
Qed.

Lemma timer_fires_after_clean_exit_witness :
  let history := [Verifier.Stdout "Checking credentials"] in
  let v :=
    Verifier.verifyCredentials true Fixtures.fs_installed Fixtures.node
      Fixtures.creds
      (history ++ [Verifier.Close (Some 0%Z); Verifier.Timeout]) in
  (In "api/api.py" (possibleApiPaths Fixtures.fs_installed)
   ∧ existsSync Fixtures.fs_installed "api/api.py" = true
   ∧ forallb Verifier.quiet history = true
   ∧ Verifier.success_phrases Verifier.Timeout
       (Verifier.stdout_of history) (Verifier.stderr_of history) = false)
  ∧ Verifier.outcome v = Verifier.Resolved true
  ∧ Verifier.sent v = send true (ApiError Verifier.msg_timed_out)
  ∧ Verifier.kills v = 1.
Proof.
  intros history v.
  assert (In "api/api.py" (possibleApiPaths Fixtures.fs_installed)) as Hin
    by (simpl; auto).
  assert (existsSync Fixtures.fs_installed "api/api.py" = true) as Hex
    by reflexivity.
  assert (forallb Verifier.quiet history = true) as Hq by reflexivity.
  assert (Verifier.success_phrases Verifier.Timeout
            (Verifier.stdout_of history) (Verifier.stderr_of history) = false)
    as Hn by reflexivity.
  split; [repeat split; assumption|].
  exact (timer_fires_after_clean_exit true Fixtures.fs_installed Fixtures.node
           Fixtures.creds "api/api.py" history Hin Hex Hq Hn).
Defined.

(** X6: the first resolution is final. Once the promise is resolved, no
    later chunk, [close] event or timer changes its value. *)
Theorem resolved_outcome_is_final
    (mainWindow : bool) (trace : list Verifier.event) (v : Verifier.vstate)
    (valid : bool) :
  Verifier.outcome v = Verifier.Resolved valid →
  Verifier.outcome (Verifier.run mainWindow trace v) = Verifier.Resolved valid.
Proof. apply run_keeps_resolved. Qed.

Lemma resolved_outcome_is_final_witness :
  let v :=
    Verifier.run true [Verifier.Stderr "AADSTS700016: Invalid client"]
      (Verifier.start true Fixtures.fs_installed Fixtures.node Fixtures.creds) in
  let later :=
    [Verifier.Stdout "Authentication successful"; Verifier.Close (Some 0%Z);
     Verifier.Timeout] in
  Verifier.outcome v = Verifier.Resolved false
  ∧ Verifier.outcome (Verifier.run true later v) = Verifier.Resolved false.
Proof.
  intros v later.
  assert (Verifier.outcome v = Verifier.Resolved false) as Hv by reflexivity.
  split; [exact Hv|].
  exact (resolved_outcome_is_final true later v false Hv).
Defined.

(** ** Output classifier: readiness *)

Section WorkerMore.

Import Worker Messages.

Variable mainWindow : bool.

Lemma filter_ready_send_error (message : string) :
  List.filter is_api_ready (send mainWindow (ApiError message)) = [].
Proof. by destruct mainWindow. Qed.

Lemma filter_ready_send_ready (p : Z) :
  List.filter is_api_ready (send mainWindow (ApiReady p))
  = send mainWindow (ApiReady p).
Proof. by destruct mainWindow. Qed.

Lemma on_data_ready_events (acc : closure * list ui_event) (c : chunk) :
  List.filter is_api_ready (on_data mainWindow acc c).2
  = List.filter is_api_ready acc.2
    ++ (if announces_ready c then send mainWindow (ApiReady (port acc.1))
        else []).
Proof.
  destruct acc as [[p st errs] evs], c as [output|output];
    unfold on_data, on_stdout, on_stderr, announces_ready, ready_marker,
      started, push; simpl.
  - destruct (includes output "Uvicorn running"
              || includes output "Application startup complete"),
      (includes output "Authentication failed" || includes output "Invalid client");
      simpl; rewrite ?List.filter_app, ?filter_ready_send_error,
        ?filter_ready_send_ready, ?app_nil_r; done.
  - rewrite (orb_comm (includes output "Uvicorn running")).
    destruct (startsWith output "INFO:"),
      (includes output "Application startup complete"
       || includes output "Uvicorn running"),
      (includes output "WARNING:"),
      (includes output "Error" || includes output "Exception"
       || includes output "Failed");
      simpl; rewrite ?List.filter_app, ?filter_ready_send_error,
        ?filter_ready_send_ready, ?app_nil_r; done.
Qed.

Lemma fold_on_data_ready_events (history : list chunk)
    (acc : closure * list ui_event) :
  List.filter is_api_ready (fold_left (on_data mainWindow) history acc).2
  = List.filter is_api_ready acc.2
    ++ flat_map
         (fun c => if announces_ready c
                   then send mainWindow (ApiReady (port acc.1)) else [])
         history.
Proof.
  revert acc. induction history as [|c history IH]; intros acc; simpl.
  - by rewrite app_nil_r.
  - rewrite IH, on_data_ready_events, on_data_closure. simpl.
    by rewrite <- app_assoc.
Qed.

End WorkerMore.

(** X7: a worker that has announced readiness is never reported at its
    [close] event, whatever its exit code, and neither is any worker that
    closes with code 0: a crash after startup is silent. *)
Theorem close_after_ready_is_silent
    (mainWindow : bool) (p : Z) (history : list Worker.chunk) (code : option Z) :
  existsb Worker.announces_ready history = true ∨ is_zero code = true →
  Worker.on_close mainWindow code (Worker.after mainWindow p history).1 = [].
Proof.
  intros Hsilent. rewrite after_closure. unfold Worker.on_close.
  cbn [Worker.apiStarted]. destruct Hsilent as [-> | ->]; [done|].
  by rewrite andb_false_r.
Qed.

Lemma close_after_ready_is_silent_witness :
  let history :=
    [Worker.Stderr "INFO:     Uvicorn running on http://0.0.0.0:8000";
     Worker.Stderr "Traceback (most recent call last): RuntimeError"] in
  (existsb Worker.announces_ready history = true ∨ is_zero (Some 1%Z) = true)
  ∧ Worker.on_close true (Some 1%Z) (Worker.after true 8000 history).1 = [].
Proof.
  intros history.
  assert (existsb Worker.announces_ready history = true
          ∨ is_zero (Some 1%Z) = true) as H by (left; reflexivity).
  split; [exact H|].
  exact (close_after_ready_is_silent true 8000 history (Some 1%Z) H).
Defined.

(** X8: the renderer is sent [api-ready] once for every chunk that
    announces readiness, so more than once when the two startup phrases
    arrive in separate chunks, and each time with the port the worker was
    started on; without a window it is sent none. *)
Theorem api_ready_once_per_announcing_chunk
    (mainWindow : bool) (p : Z) (history : list Worker.chunk) :
  List.filter Messages.is_api_ready (Worker.after mainWindow p history).2
  = flat_map
      (fun c => if Worker.announces_ready c
                then send mainWindow (ApiReady p) else [])
      history.
Proof. unfold Worker.after. by rewrite fold_on_data_ready_events. Qed.

(** ** Session orchestrator: what a login leaves behind *)

Section SessionMore.

Import Main.

Lemma live_kill_existing (s : state) (pid : nat) :
  live (kill_existing s) pid = true → live s pid = true.
Proof.
  unfold kill_existing. destruct (pythonProcess s) as [h|]; [|done].
  rewrite (live_processes (kill h s)) by done. rewrite live_kill.
  by intros [? _]%andb_true_iff.
Qed.

Lemma length_kill_existing (s : state) :
  length (processes (kill_existing s)) = length (processes s).
Proof.
  unfold kill_existing. destruct (pythonProcess s) as [h|]; [|done].
  simpl. apply length_alter.
Qed.

Lemma store_kill_existing (s : state) : store (kill_existing s) = store s.
Proof. unfold kill_existing. by destruct (pythonProcess s). Qed.

Lemma kill_existing_tracked_handle (s : state) :
  pythonProcess (kill_existing s) = None.
Proof. unfold kill_existing. by destruct (pythonProcess s) eqn:H. Qed.

Lemma kill_existing_idle (s : state) :
  pythonProcess s = None → kill_existing s = s.
Proof. unfold kill_existing. by intros ->. Qed.

(** With the script in place, credentials in the store that [spawn]
    accepts and no handle held, [startPythonApi] spawns. *)
Lemma startPythonApi_spawns (fs : filesystem) (node : runtime) (p : Z)
    (s : state) (apiPath : string) (c : credentials) :
  (∀ mw, findApiPath mw fs = ([], Return apiPath)) →
  stored_credentials s = Some c →
  spawnThrows node c = None →
  pythonProcess s = None →
  startPythonApi fs node p s = (spawn c p s, Some (length (processes s))).
Proof.
  intros Hapi Hcreds Hspawn Hidle. unfold startPythonApi.
  rewrite (kill_existing_idle s Hidle), Hapi, Hcreds, Hspawn. done.
Qed.



Lemma live_spawn_old (c : credentials) (p : Z) (s : state) (h : nat) :
  h < length (processes s) → live (spawn c p s) h = live s h.
Proof. intros Hlt. unfold live, spawn. simpl. by rewrite lookup_app_l. Qed.

Lemma live_spawn_new (c : credentials) (p : Z) (s : state) :
  live (spawn c p s) (length (processes s)) = true.
Proof.
  unfold live, spawn. simpl. rewrite lookup_app_r by done.
  by rewrite Nat.sub_diag.
Qed.

(** A verification that resolved had its script, and its [spawn] did
    not throw. *)
Lemma resolved_has_api (mw : bool) (fs : filesystem) (node : runtime)
    (c : credentials) (trace : list Verifier.event) (valid : bool) :
  Verifier.outcome (Verifier.verifyCredentials mw fs node c trace)
  = Verifier.Resolved valid →
  spawnThrows node c = None
  ∧ ∃ apiPath, ∀ mw', findApiPath mw' fs = ([], Return apiPath).
Proof.
  unfold Verifier.verifyCredentials, Verifier.start, findApiPath.
  destruct (List.find (existsSync fs) (possibleApiPaths fs)) as [p|]; simpl;
    [|done].
  destruct (spawnThrows node c); simpl; [done|].
  intros _. split; [done|]. by exists p.
Qed.

(** A verification that did not resolve [true] leaves all but the
    messages as they were. *)
Lemma store_emit (evs : list ui_event) (s : state) :
  store (emit evs s) = store s.
Proof. done. Qed.

Lemma tracked_at_most_one (s : state) :
  tracked s → length (live_workers s) ≤ 1.
Proof.
  intros Htracked.
  assert (NoDup (live_workers s)) as Hnodup
    by (unfold live_workers; apply NoDup_ListNoDup, List.NoDup_filter, seq_NoDup).
  assert (∀ pid, In pid (live_workers s) → pythonProcess s = Some pid) as Hall.
  { intros pid [_ Hlive]%filter_In. by apply Htracked. }
  destruct (live_workers s) as [|a [|b rest]]; simpl; [lia | lia |].
  pose proof (Hall a (or_introl eq_refl)) as Ha.
  pose proof (Hall b (or_intror (or_introl eq_refl))) as Hb.
  rewrite Ha in Hb. injection Hb as ->.
  apply NoDup_cons_1_1 in Hnodup. exfalso. apply Hnodup. constructor.
Qed.

Lemma worker_data_live (pid : nat) (c : Worker.chunk) (s : state) (q : nat) :
  live (worker_data pid c s) q = live s q.
Proof.
  unfold worker_data.
  destruct (processes s !! pid) as [[e w st]|] eqn:Hlook; [|done].
  assert (pid < length (processes s)) as Hlt by (by eapply lookup_lt_Some).
  destruct (Worker.on_data (mainWindow s) (w, []) c) as [w' evs].
  destruct st; try done; unfold live; simpl.
  all: destruct (decide (q = pid)) as [->|Hne];
    [rewrite list_lookup_insert_eq by done; by rewrite Hlook
    |by rewrite list_lookup_insert_ne].
Qed.

Lemma worker_data_handle (pid : nat) (c : Worker.chunk) (s : state) :
  pythonProcess (worker_data pid c s) = pythonProcess s.
Proof.
  unfold worker_data.
  destruct (processes s !! pid) as [[e w st]|]; [|done].
  destruct (Worker.on_data (mainWindow s) (w, []) c) as [w' evs].
  by destruct st.
Qed.

Lemma worker_close_tracked_idle (pid : nat) (code : option Z) (s : state) :
  tracked s → pythonProcess s = None → tracked (worker_close pid code s).
Proof.
  intros Htracked Hnone.
  assert (∀ q, live s q = false) as Hdead.
  { intros q. destruct (live s q) eqn:Hq; [|done].
    apply Htracked in Hq. congruence. }
  unfold worker_close.
  destruct (processes s !! pid) as [[e w st]|] eqn:Hlook; [|done].
  assert (pid < length (processes s)) as Hlt by (by eapply lookup_lt_Some).
  destruct st; try done.
  all: apply no_live_tracked; intros q; unfold live; simpl.
  all: destruct (decide (q = pid)) as [->|Hne];
    [by rewrite list_lookup_insert_eq|].
  all: rewrite list_lookup_insert_ne by done; apply Hdead.
Qed.

Lemma step_tracked (e : event) (s : state) :
  tracked s →
  match e with
  | WorkerClose pid _ => pythonProcess s = None ∨ pythonProcess s = Some pid
  | _ => True
  end →
  tracked (step s e).
Proof.
  intros Htracked Htimely. destruct e as [w c| |pid c|pid code]; simpl.
  - by apply login_tracked.
  - by apply logout_tracked.
  - intros q Hq. rewrite worker_data_live in Hq.
    rewrite worker_data_handle. by apply Htracked.
  - destruct Htimely as [Hnone | Hsame].
    + by apply worker_close_tracked_idle.
    + by apply worker_close_tracked.
Qed.

Lemma run_tracked (trace : list event) (s : state) :
  tracked s → Lifecycle.timely trace s → tracked (run trace s).
Proof.
  revert s. induction trace as [|e trace IH]; intros s Htracked Htimely; [done|].
  destruct Htimely as [He Hrest].
  apply IH; [|done]. by apply step_tracked.
Qed.

End SessionMore.

(** X9: a [login] that reports failure has spawned nothing and has
    written neither credentials nor a port: the process table has the same
    length and no worker is live that was not live before. For a
    credentials object the store is as before (a worker that was under the
    handle has been killed all the same, unless the failure was a blank
    field). Without an object the store differs in [isLoggedIn], which the
    handler sets to [false], and nothing else has changed: a worker that
    was running still runs, and the credentials it was started with are
    still stored. *)
Theorem failed_login_keeps_credentials_and_spawns_nothing
    (w : Main.world) (arg : argument) (s : Main.state) (r : Main.ipc_result) :
  (Main.login w arg s).2 = Some r →
  Main.success r = false →
  let s' := (Main.login w arg s).1 in
  match arg with
  | Object _ => Main.store s' = Main.store s
  | _ =>
      s' = Main.store_set "isLoggedIn" (Main.VBool false) s
      ∧ Main.processes s' = Main.processes s
      ∧ Main.pythonProcess s' = Main.pythonProcess s
  end
  ∧ Main.store s' !! "graphCredentials" = Main.store s !! "graphCredentials"
  ∧ Main.store s' !! "apiPort" = Main.store s !! "apiPort"
  ∧ length (Main.processes s') = length (Main.processes s)
  ∧ ∀ pid, Main.live s' pid = true → Main.live s pid = true.
Proof.
  intros Hr Hfail s'. subst s'. revert Hr. unfold Main.login.
  destruct arg as [| |c].
  1,2: intros _; cbn [fst]; split; [done|];
    (split; [by simplify_map_eq|]); (split; [by simplify_map_eq|]); done.
  destruct (_ || _ || _); [done|].
  destruct (Verifier.outcome _) as [|[]|]; simpl; try done.
  - destruct (PortAllocator.found _); simpl; [|done].
    intros [= <-]. done.
  - intros _. rewrite !store_kill_existing. split; [done|].
    split; [done|]. split; [done|].
    split; [apply length_kill_existing|].
    intros pid. apply live_kill_existing.
  - intros _. rewrite !store_kill_existing. split; [done|].
    split; [done|]. split; [done|].
    split; [apply length_kill_existing|].
    intros pid. apply live_kill_existing.
Qed.

Lemma failed_login_keeps_credentials_and_spawns_nothing_witness :
  let s := Main.run [Main.Login Fixtures.accepting Fixtures.creds] Fixtures.booted in
  let r := Main.failure "Cannot read properties of null (reading 'clientId')" in
  let s' := (Main.login Fixtures.accepting Null s).1 in
  ((Main.login Fixtures.accepting Null s).2 = Some r ∧ Main.success r = false)
  ∧ Main.store s' !! "isLoggedIn" = Some (Main.VBool false)
  ∧ Main.store s' !! "graphCredentials" = Some (Main.VCreds Fixtures.creds)
  ∧ Main.live_workers s' = [0]
  ∧ (s' = Main.store_set "isLoggedIn" (Main.VBool false) s
     ∧ Main.processes s' = Main.processes s
     ∧ Main.pythonProcess s' = Main.pythonProcess s)
  ∧ Main.store s' !! "graphCredentials" = Main.store s !! "graphCredentials"
  ∧ Main.store s' !! "apiPort" = Main.store s !! "apiPort"
  ∧ length (Main.processes s') = length (Main.processes s)
  ∧ ∀ pid, Main.live s' pid = true → Main.live s pid = true.
Proof.
  intros s r s'.
  assert ((Main.login Fixtures.accepting Null s).2 = Some r) as H1
    by reflexivity.
  assert (Main.success r = false) as H2 by reflexivity.
  split; [split; assumption|].
  split; [reflexivity|]. split; [reflexivity|]. split; [reflexivity|].
  exact (failed_login_keeps_credentials_and_spawns_nothing Fixtures.accepting
           Null s r H1 H2).
Defined.

(** X10: a [login] that reports success has stored the credentials and
    [isLoggedIn = true], has found a port that passed its bind probe, has
    recorded it in the store and in [apiPort] (so [get-api-port] answers
    it), and has spawned a new worker on that port with these credentials
    in its environment; the handle refers to that worker. *)
Theorem successful_login_starts_worker
    (w : Main.world) (c : credentials) (s : Main.state) (r : Main.ipc_result) :
  (Main.login w c s).2 = Some r →
  Main.success r = true →
  let s' := (Main.login w c s).1 in
  ∃ p,
    Main.bindable w p = true
    ∧ Main.store s' !! "graphCredentials" = Some (Main.VCreds c)
    ∧ Main.store s' !! "isLoggedIn" = Some (Main.VBool true)
    ∧ Lifecycle.get_store_value "apiPort" s' = Some (Main.VNum p)
    ∧ Lifecycle.get_api_port s' = Some p
    ∧ Main.pythonProcess s' = Some (length (Main.processes s))
    ∧ Main.processes s' !! length (Main.processes s)
      = Some {| Main.childEnv := c;
                Main.closure := {| Worker.port := p; Worker.apiStarted := false;
                                   Worker.apiErrors := [] |};
                Main.status := Main.Running |}.
Proof.
  intros Hr Hs. revert Hr. unfold Main.login.
  destruct (_ || _ || _); [by intros [= <-]|].
  set (s1 := Main.kill_existing s).
  set (v := Verifier.verifyCredentials _ _ _ _ _).
  destruct (Verifier.outcome v) as [|[]|] eqn:Hv;
    try done; try (by intros [= <-]).
  destruct (PortAllocator.found _) as [p|] eqn:Hport; [|done].
  intros _. exists p.
  apply findAvailablePort_sound in Hport.
  apply resolved_has_api in Hv as [Hspawn [apiPath Hapi]].
  set (s3 := Main.store_set "isLoggedIn" _ _).
  assert (Main.pythonProcess s3 = None) as Hidle
    by (subst s3 s1; simpl; apply kill_existing_tracked_handle).
  assert (Main.stored_credentials s3 = Some c) as Hcreds.
  { subst s3. unfold Main.stored_credentials. simpl.
    rewrite lookup_insert_ne by done. by rewrite lookup_insert_eq. }
  assert (length (Main.processes s3) = length (Main.processes s)) as Hlen
    by (subst s3 s1; simpl; apply length_kill_existing).
  cbn [fst snd].
  rewrite (startPythonApi_spawns (Main.fs w) (Main.node w) p s3 apiPath c
             Hapi Hcreds Hspawn Hidle).
  unfold Lifecycle.get_store_value, Lifecycle.get_api_port, Main.spawn.
  simpl. rewrite <- Hlen.
  split; [done|]. split; [by simplify_map_eq|]. split; [by simplify_map_eq|].
  split; [by simplify_map_eq|]. split; [done|]. split; [done|].
  rewrite lookup_app_r by done. by rewrite Nat.sub_diag.
Qed.

Lemma successful_login_starts_worker_witness :
  let r := {| Main.success := true; Main.message := None |} in
  let s' := (Main.login Fixtures.accepting Fixtures.creds Fixtures.booted).1 in
  ((Main.login Fixtures.accepting Fixtures.creds Fixtures.booted).2 = Some r
   ∧ Main.success r = true)
  ∧ ∃ p,
      Main.bindable Fixtures.accepting p = true
      ∧ Main.store s' !! "graphCredentials" = Some (Main.VCreds Fixtures.creds)
      ∧ Main.store s' !! "isLoggedIn" = Some (Main.VBool true)
      ∧ Lifecycle.get_store_value "apiPort" s' = Some (Main.VNum p)
      ∧ Lifecycle.get_api_port s' = Some p
      ∧ Main.pythonProcess s' = Some (length (Main.processes Fixtures.booted))
      ∧ Main.processes s' !! length (Main.processes Fixtures.booted)
        = Some {| Main.childEnv := Fixtures.creds;
                  Main.closure := {| Worker.port := p; Worker.apiStarted := false;
                                     Worker.apiErrors := [] |};
                  Main.status := Main.Running |}.
Proof.
  intros r s'.
  assert ((Main.login Fixtures.accepting Fixtures.creds Fixtures.booted).2
          = Some r) as H1 by reflexivity.
  assert (Main.success r = true) as H2 by reflexivity.
  split; [split; assumption|].
  exact (successful_login_starts_worker Fixtures.accepting Fixtures.creds
           Fixtures.booted r H1 H2).
Defined.

(** X11: [login] followed by [logout] ends a session whatever the login
    did. Starting from a state in which every live worker is under the
    handle, no worker is live afterwards, the handle is empty, the
    credentials are gone from the store and [isLoggedIn] is [false]. *)
Theorem login_then_logout_ends_session
    (w : Main.world) (c : credentials) (s : Main.state) :
  Main.tracked s →
  let s' := (Main.logout (Main.login w c s).1).1 in
  Main.live_workers s' = []
  ∧ Main.pythonProcess s' = None
  ∧ Main.store s' !! "graphCredentials" = None
  ∧ Main.store s' !! "isLoggedIn" = Some (Main.VBool false).
Proof.
  intros Htracked s'.
  pose proof (login_tracked w c s Htracked) as Hlogin.
  destruct (logout_resets_session (Main.login w c s).1)
    as (_ & Hcreds & Hflag & Hnull & _ & Hlive).
  subst s'. split; [by apply Hlive|]. done.
Qed.

Lemma login_then_logout_ends_session_witness :
  let s' :=
    (Main.logout
       (Main.login Fixtures.accepting Fixtures.creds Fixtures.booted).1).1 in
  Main.tracked Fixtures.booted
  ∧ Main.live_workers s' = []
  ∧ Main.pythonProcess s' = None
  ∧ Main.store s' !! "graphCredentials" = None
  ∧ Main.store s' !! "isLoggedIn" = Some (Main.VBool false).
Proof.
  intros s'.
  assert (Main.tracked Fixtures.booted) as Htracked
    by (intros pid Hlive; destruct pid; discriminate Hlive).
  split; [exact Htracked|].
  exact (login_then_logout_ends_session Fixtures.accepting Fixtures.creds
           Fixtures.booted Htracked).
Defined.

(** X12: as long as no [close] event of a worker is delivered while the
    handle refers to another worker, at most one worker is live after any
    sequence of logins, logouts, output chunks and [close] events, and the
    live one is the one under the handle. *)
Theorem at_most_one_live_worker_without_stale_close
    (trace : list Main.event) (s : Main.state) :
  Main.tracked s →
  Lifecycle.timely trace s →
  Main.tracked (Main.run trace s)
  ∧ length (Main.live_workers (Main.run trace s)) ≤ 1.
Proof.
  intros Htracked Htimely.
  pose proof (run_tracked trace s Htracked Htimely) as Hrun.
  split; [done|]. by apply tracked_at_most_one.
Qed.

Lemma at_most_one_live_worker_without_stale_close_witness :
  let trace :=
    [Main.Login Fixtures.accepting Fixtures.creds;
     Main.WorkerData 0 (Worker.Stderr "INFO:     Uvicorn running");
     Main.Login Fixtures.accepting Fixtures.creds;
     Main.WorkerClose 1 (Some 1%Z);
     Main.WorkerClose 0 None;
     Main.Login Fixtures.accepting Fixtures.creds] in
  (Main.tracked Fixtures.booted ∧ Lifecycle.timely trace Fixtures.booted)
  ∧ Main.tracked (Main.run trace Fixtures.booted)
  ∧ length (Main.live_workers (Main.run trace Fixtures.booted)) ≤ 1.
Proof.
  intros trace.
  assert (Main.tracked Fixtures.booted) as Htracked
    by (intros pid Hlive; destruct pid; discriminate Hlive).
  assert (Lifecycle.timely trace Fixtures.booted) as Htimely
    by (vm_compute; tauto).
  split; [split; assumption|].
  exact (at_most_one_live_worker_without_stale_close trace Fixtures.booted
           Htracked Htimely).
Defined.

(** X13: [startPythonApi] returns [null] exactly when [api.py] is at none
    of the candidate paths, or the store holds no credentials, or [spawn]
    throws on the environment made from the stored credentials. In the
    first and the last case the renderer, when there is a window, is sent
    "Failed to start API: " followed by the message of the error.
    Otherwise the function returns the worker it spawned, which is live
    and under the handle. In every case the worker that was under the
    handle before is no longer live. *)
Theorem startPythonApi_spawns_iff_api_and_credentials
    (fs : filesystem) (node : runtime) (p : Z) (s : Main.state) :
  let r := Main.startPythonApi fs node p s in
  (r.2 = None
   ↔ List.find (existsSync fs) (possibleApiPaths fs) = None
     ∨ Main.stored_credentials s = None
     ∨ ∃ c error, Main.stored_credentials s = Some c
                  ∧ spawnThrows node c = Some error)
  ∧ (∀ apiPath c error,
       List.find (existsSync fs) (possibleApiPaths fs) = Some apiPath →
       Main.stored_credentials s = Some c →
       spawnThrows node c = Some error →
       Main.sent r.1
       = Main.sent s
         ++ send (Main.mainWindow s) (ApiError ("Failed to start API: " +:+ error))
       ∧ Main.pythonProcess r.1 = None
       ∧ length (Main.processes r.1) = length (Main.processes s))
  ∧ (∀ pid, r.2 = Some pid →
       pid = length (Main.processes s)
       ∧ Main.pythonProcess r.1 = Some pid
       ∧ Main.live r.1 pid = true)
  ∧ (∀ h, Main.pythonProcess s = Some h → h < length (Main.processes s) →
       Main.live r.1 h = false).
Proof.
  intros r. subst r. unfold Main.startPythonApi.
  assert (Main.stored_credentials (Main.kill_existing s)
          = Main.stored_credentials s) as Hcreds
    by (unfold Main.stored_credentials; by rewrite store_kill_existing).
  assert (∀ h, Main.pythonProcess s = Some h →
               Main.live (Main.kill_existing s) h = false) as Hstopped
    by (intros h Hh; by apply kill_existing_stops_handle).
  pose proof (length_kill_existing s) as Hlen.
  pose proof (kill_existing_tracked_handle s) as Hnull.
  assert (Main.mainWindow (Main.kill_existing s) = Main.mainWindow s) as Hmw
    by (unfold Main.kill_existing; by destruct (Main.pythonProcess s)).
  assert (Main.sent (Main.kill_existing s) = Main.sent s) as Hsent
    by (unfold Main.kill_existing; by destruct (Main.pythonProcess s)).
  unfold findApiPath.
  destruct (List.find (existsSync fs) (possibleApiPaths fs)) as [apiPath|].
  - rewrite Hcreds.
    destruct (Main.stored_credentials s) as [c|]; cbn [fst snd].
    + destruct (spawnThrows node c) as [error|] eqn:Hspawn; cbn [fst snd].
      * split; [split; [intros _; right; right; by exists c, error | done]|].
        split.
        { intros ? c' error' [= <-] [= <-]. rewrite Hspawn. intros [= <-].
          unfold Main.start_failed. cbn. by rewrite Hmw, Hsent, Hnull, Hlen. }
        split; [done|]. intros h Hh _. by apply Hstopped.
      * split.
        { split; [done|]. intros [|[|(c' & error & [= <-] & Hc')]]; try done.
          congruence. }
        split; [intros ? c' error' _ [= <-]; congruence|]. split.
        { intros pid [= <-]. rewrite <- Hlen.
          split; [done|]. split; [done|]. apply live_spawn_new. }
        intros h Hh Hlt. rewrite live_spawn_old by lia. by apply Hstopped.
    + split; [split; [by (right; left) | done]|]. split; [done|].
      split; [done|]. intros h Hh _. by apply Hstopped.
  - cbn [fst snd]. split; [split; [by left | done]|]. split; [done|].
    split; [done|]. intros h Hh _. by apply Hstopped.
Qed.

Lemma startPythonApi_spawns_iff_api_and_credentials_witness :
  let s :=
    Main.store_set "graphCredentials" (Main.VCreds Fixtures.creds_nul_secret)
      (Main.run [Main.Login Fixtures.accepting Fixtures.creds] Fixtures.booted) in
  let r := Main.startPythonApi Fixtures.fs_installed Fixtures.node 8001 s in
  r.2 = None
  ∧ Main.live_workers r.1 = []
  ∧ (∃ c error, Main.stored_credentials s = Some c
                ∧ spawnThrows Fixtures.node c = Some error).
Proof.
  intros s r.
  destruct (startPythonApi_spawns_iff_api_and_credentials Fixtures.fs_installed
              Fixtures.node 8001 s) as ([_ Hnull] & _).
  assert (∃ c error, Main.stored_credentials s = Some c
                     ∧ spawnThrows Fixtures.node c = Some error) as Hthrows
    by (eexists; eexists; split; vm_compute; reflexivity).
  split; [exact (Hnull (or_intror (or_intror Hthrows)))|].
  split; [reflexivity | exact Hthrows].
Defined.


(** ** Shutdown, page loads and the polling of the dev server *)

Section LifecycleFacts.

Import Main Lifecycle.

Lemma page_loads_after_first (loads : list bool) (pg : page) :
  initialLoadComplete pg = true → page_loads false loads pg = pg.
Proof.
  intros Hdone. induction loads as [|usable loads IH]; [done|].
  unfold page_loads in *. simpl. unfold handlePageLoaded at 2.
  rewrite Hdone. simpl. exact IH.
Qed.

Lemma show_logins_app (a b : list ui_event) :
  show_logins (a ++ b) = show_logins a + show_logins b.
Proof. unfold show_logins. by rewrite List.filter_app, length_app. Qed.

Lemma page_loads_dev (loads : list bool) (pg : page) :
  show_logins (shown (page_loads true loads pg))
  = show_logins (shown pg) + 2 * length loads.
Proof.
  revert pg. induction loads as [|usable loads IH]; intros pg.
  - unfold page_loads. simpl. lia.
  - change (page_loads true (usable :: loads) pg)
      with (page_loads true loads (did_finish_load_dev pg)).
    rewrite IH. unfold did_finish_load_dev. cbn [shown].
    rewrite show_logins_app. cbn [length].
    change (show_logins [ShowLogin; ShowLogin]) with 2. lia.
Qed.


End LifecycleFacts.

(** X14: at [before-quit], starting from a state in which every live
    worker is under the handle, no worker is left live; the handle and the
    dev server reference are cleared, and neither the store nor the
    renderer is touched. *)
Theorem before_quit_leaves_no_worker (s : Main.state) :
  Main.tracked s →
  let s' := Lifecycle.before_quit s in
  Main.live_workers s' = []
  ∧ Main.pythonProcess s' = None
  ∧ Main.nextProcess s' = false
  ∧ Main.store s' = Main.store s
  ∧ Main.sent s' = Main.sent s.
Proof.
  intros Htracked s'. subst s'. unfold Lifecycle.before_quit.
  destruct (kill_existing_tracked s Htracked) as [Hnull Hdead].
  assert (Main.sent (Main.kill_existing s) = Main.sent s) as Hsent
    by (unfold Main.kill_existing; by destruct (Main.pythonProcess s)).
  destruct (Main.nextProcess (Main.kill_existing s)) eqn:Hnext; simpl.
  - split; [by apply live_workers_none|]. split; [done|]. split; [done|].
    split; [apply store_kill_existing | done].
  - split; [by apply live_workers_none|]. split; [done|]. split; [done|].
    split; [apply store_kill_existing | done].
Qed.

Lemma before_quit_leaves_no_worker_witness :
  let s := Main.run [Main.Login Fixtures.accepting Fixtures.creds] Fixtures.booted in
  let s' := Lifecycle.before_quit s in
  Main.tracked s
  ∧ Main.live_workers s' = []
  ∧ Main.pythonProcess s' = None
  ∧ Main.nextProcess s' = false
  ∧ Main.store s' = Main.store s
  ∧ Main.sent s' = Main.sent s.
Proof.
  intros s s'.
  assert (Main.tracked s) as Htracked.
  { apply (login_tracked Fixtures.accepting Fixtures.creds Fixtures.booted).
    intros pid Hlive. destruct pid; discriminate Hlive. }
  split; [exact Htracked|].
  exact (before_quit_leaves_no_worker s Htracked).
Defined.

(** X15: in the production build the page-load hook sends [show-login]
    at most once in a run, at the first load and only if the window is then
    usable; later loads send nothing. In development every load sends it
    twice. *)
Theorem show_login_once_in_production_twice_per_load_in_development
    (loads : list bool) :
  Lifecycle.show_logins
    (Lifecycle.shown (Lifecycle.page_loads false loads Pages.unloaded))
  = match loads with
    | true :: _ => 1
    | _ => 0
    end
  ∧ Lifecycle.show_logins
      (Lifecycle.shown (Lifecycle.page_loads true loads Pages.unloaded))
    = 2 * length loads.
Proof.
  split.
  - destruct loads as [|usable loads]; [done|].
    change (Lifecycle.page_loads false (usable :: loads) Pages.unloaded)
      with (Lifecycle.page_loads false loads
              (Lifecycle.handlePageLoaded usable Pages.unloaded).1).
    rewrite page_loads_after_first by done. by destruct usable.
  - by rewrite page_loads_dev.
Qed.


(** ** The PIDs read from [netstat] *)

Section NextProcessesFacts.

Import NextProcesses.

Lemma append_cons (c : ascii) (a b : string) :
  String c a +:+ b = String c (a +:+ b).
Proof. done. Qed.

Lemma digit_not_space (c : ascii) : is_digit c = true → is_space c = false.
Proof.
  unfold is_digit, is_space.
  intros [H1 H2]%andb_true_iff. apply Nat.leb_le in H1, H2.
  repeat (apply orb_false_iff; split).
  - apply andb_false_iff. right. apply Nat.leb_gt. lia.
  - apply Nat.eqb_neq. lia.
  - apply Nat.eqb_neq. lia.
Qed.

Lemma digit_not_terminator (c : ascii) :
  is_digit c = true → is_line_terminator c = false.
Proof.
  unfold is_digit, is_line_terminator.
  intros [H1 H2]%andb_true_iff. apply Nat.leb_le in H1, H2.
  apply orb_false_iff; split; apply Nat.eqb_neq; lia.
Qed.

Lemma digits_to_end_digits (s d : string) :
  digits_to_end s = Some d → all_chars is_digit d = true.
Proof.
  revert d. induction s as [|c s IH]; intros d; simpl.
  - by intros [= <-].
  - destruct (is_digit c) eqn:Hc.
    + destruct (digits_to_end s) as [d'|]; simpl; [|done].
      intros [= <-]. simpl. rewrite Hc. by apply IH.
    + destruct (is_line_terminator c); [by intros [= <-] | done].
Qed.

Lemma spaces_then_pid_is_pid (s d : string) :
  spaces_then_pid s = Some d → is_pid d = true.
Proof.
  induction s as [|c s IH]; simpl; [done|].
  destruct (is_space c); [done|].
  destruct (is_digit c) eqn:Hc; [|done].
  destruct (digits_to_end s) as [d'|] eqn:Hd; simpl; [|done].
  intros [= <-]. unfold is_pid. simpl. rewrite Hc.
  by apply digits_to_end_digits in Hd.
Qed.

Lemma pid_match_is_pid (line d : string) :
  pid_match line = Some d → is_pid d = true.
Proof.
  induction line as [|c line IH]; simpl; [done|].
  destruct (is_space c).
  - destruct (spaces_then_pid line) as [pid|] eqn:Hs.
    + intros [= <-]. by apply spaces_then_pid_is_pid in Hs.
    + exact IH.
  - exact IH.
Qed.

Lemma pidsToKill_numeric (stdout : string) :
  Forall (fun pid => is_pid pid = true) (pidsToKill stdout).
Proof.
  apply Forall_forall. intros pid Hin. unfold pidsToKill in Hin.
  apply list_elem_of_omap in Hin as (line & _ & Hmatch).
  by apply pid_match_is_pid in Hmatch.
Qed.

Lemma digits_to_end_run (d tail : string) :
  all_chars is_digit d = true → line_end tail →
  digits_to_end (d +:+ tail) = Some d.
Proof.
  intros Hd Htail. induction d as [|c d IH].
  - by destruct Htail as [-> | ->].
  - simpl in Hd. apply andb_true_iff in Hd as [Hc Hd].
    rewrite append_cons. simpl. rewrite Hc, (IH Hd). done.
Qed.

Lemma digits_to_end_blocked (pre rest : string) :
  one_line pre = true →
  digits_to_end (pre +:+ " " +:+ rest) = None.
Proof.
  intros Hpre. induction pre as [|c pre IH].
  - done.
  - unfold one_line in Hpre. simpl in Hpre.
    apply andb_true_iff in Hpre as [Hc Hpre]. apply negb_true_iff in Hc.
    rewrite append_cons. simpl. rewrite (IH Hpre), Hc.
    by destruct (is_digit c).
Qed.

Lemma spaces_then_pid_line (pre d tail : string) :
  one_line pre = true → is_pid d = true → line_end tail →
  spaces_then_pid (pre +:+ " " +:+ d +:+ tail)
  = if all_chars is_space pre then Some d else None.
Proof.
  intros Hpre Hd Htail.
  apply andb_true_iff in Hd as [Hne Hd].
  induction pre as [|c pre IH].
  - destruct d as [|x d]; [done|].
    simpl in Hd. apply andb_true_iff in Hd as [Hx Hd].
    change (spaces_then_pid (String x (d +:+ tail))
            = Some (String x d)).
    simpl. rewrite (digit_not_space x Hx), Hx.
    by rewrite (digits_to_end_run d tail Hd Htail).
  - unfold one_line in Hpre. simpl in Hpre.
    apply andb_true_iff in Hpre as [Hc Hpre].
    rewrite append_cons. simpl.
    destruct (is_space c); [by apply IH|]. simpl.
    destruct (is_digit c); [|done].
    by rewrite (digits_to_end_blocked pre (d +:+ tail) Hpre).
Qed.

Lemma pid_match_line (pre d tail : string) :
  one_line pre = true → is_pid d = true → line_end tail →
  pid_match (pre +:+ " " +:+ d +:+ tail) = Some d.
Proof.
  intros Hpre Hd Htail. induction pre as [|c pre IH].
  - change (pid_match (String " " (d +:+ tail)) = Some d).
    simpl.
    change (spaces_then_pid (d +:+ tail))
      with (spaces_then_pid ("" +:+ " " +:+ d +:+ tail)).
    by rewrite (spaces_then_pid_line "" d tail eq_refl Hd Htail).
  - pose proof Hpre as Hall. unfold one_line in Hpre. simpl in Hpre.
    apply andb_true_iff in Hpre as [Hc Hpre].
    rewrite append_cons. simpl.
    destruct (is_space c); [|by apply IH].
    rewrite (spaces_then_pid_line pre d tail Hpre Hd Htail).
    destruct (all_chars is_space pre); [done | by apply IH].
Qed.

End NextProcessesFacts.

(** X17: whatever [netstat] printed, the [taskkill] command the function
    runs names at least one PID, and every PID in it is a nonempty string
    of decimal digits, so nothing else of the output reaches the shell. A
    command is only run on Windows. *)
Theorem kill_command_names_only_numeric_pids
    (win32 error : bool) (stdout cmd : string) :
  NextProcesses.killExistingNextProcesses win32 error stdout = Some cmd →
  win32 = true
  ∧ NextProcesses.pidsToKill stdout ≠ []
  ∧ Forall (fun pid => NextProcesses.is_pid pid = true)
      (NextProcesses.pidsToKill stdout)
  ∧ cmd = "taskkill /F /PID "
          +:+ join " /PID " (NextProcesses.pidsToKill stdout).
Proof.
  unfold NextProcesses.killExistingNextProcesses.
  destruct win32; simpl; [|done].
  destruct (error && _); [done|].
  destruct (negb _); [|done].
  destruct (NextProcesses.pidsToKill stdout) as [|pid pids] eqn:Hpids; [done|].
  intros [= <-]. split; [done|]. split; [done|].
  split; [|done]. rewrite <- Hpids. apply pidsToKill_numeric.
Qed.

Lemma kill_command_names_only_numeric_pids_witness :
  let cmd := "taskkill /F /PID 4242 /PID 977" in
  NextProcesses.killExistingNextProcesses true false MoreFixtures.netstat_3030
  = Some cmd
  ∧ NextProcesses.pidsToKill MoreFixtures.netstat_3030 ≠ []
  ∧ Forall (fun pid => NextProcesses.is_pid pid = true)
      (NextProcesses.pidsToKill MoreFixtures.netstat_3030)
  ∧ cmd = "taskkill /F /PID "
          +:+ join " /PID " (NextProcesses.pidsToKill MoreFixtures.netstat_3030).
Proof.
  intros cmd.
  assert (NextProcesses.killExistingNextProcesses true false
            MoreFixtures.netstat_3030 = Some cmd) as H by reflexivity.
  split; [exact H|].
  exact (proj2 (kill_command_names_only_numeric_pids true false
                  MoreFixtures.netstat_3030 cmd H)).
Defined.

(** X18: from a line that ends with a blank and a run of digits, with or
    without a carriage return after it, and that has no line terminator
    before, the PID read is that final run of digits, whatever digits and
    blanks stand earlier in the line. *)
Theorem netstat_line_yields_trailing_pid (pre pid : string) :
  NextProcesses.one_line pre = true →
  NextProcesses.is_pid pid = true →
  NextProcesses.pid_match (pre +:+ " " +:+ pid) = Some pid
  ∧ NextProcesses.pid_match (pre +:+ " " +:+ pid +:+ NextProcesses.CR)
    = Some pid.
Proof.
  intros Hpre Hpid. split.
  - pose proof (pid_match_line pre pid "" Hpre Hpid (or_introl eq_refl)) as H.
    by rewrite append_empty_r in H.
  - exact (pid_match_line pre pid NextProcesses.CR Hpre Hpid
             (or_intror eq_refl)).
Qed.

Lemma netstat_line_yields_trailing_pid_witness :
  let pre := "  TCP    0.0.0.0:3030    0.0.0.0:0    LISTENING      " in
  (NextProcesses.one_line pre = true ∧ NextProcesses.is_pid "4242" = true)
  ∧ NextProcesses.pid_match (pre +:+ " " +:+ "4242") = Some "4242"
  ∧ NextProcesses.pid_match (pre +:+ " " +:+ "4242" +:+ NextProcesses.CR)
    = Some "4242".
Proof.
  intros pre.
  assert (NextProcesses.one_line pre = true) as H1 by reflexivity.
  assert (NextProcesses.is_pid "4242" = true) as H2 by reflexivity.
  split; [split; assumption|].
  exact (netstat_line_yields_trailing_pid pre "4242" H1 H2).
Defined.

(** ** The renderer's home page *)

Section RendererFacts.

Import Renderer.









End RendererFacts.

(** X19: the listeners tolerate duplicates. Delivering the same message
    a second time right after the first changes nothing, so the two
    [show-login] messages of a page load, or [api-ready] sent for each
    startup phrase, have the effect of one. *)
Theorem duplicate_delivery_changes_nothing
    (h : Renderer.home) (m : Renderer.message) :
  Renderer.deliver (Renderer.deliver h m) m = Renderer.deliver h m.
Proof.
  destruct h as [sl err [] ld al]; [|done].
  destruct m as [[p|t|]|[[]|]], sl, ld, al; done.
Qed.



(** ** The Winget deployment page *)

Section WingetFacts.

Import Winget.

Lemma selected_iff (x : string) (l : list SelectedApp) :
  existsb (fun selectedApp => String.eqb (id selectedApp) x) l = true
  ↔ x ∈ id <$> l.
Proof.
  rewrite existsb_exists, list_elem_of_fmap. split.
  - intros (a & Hin & Heq). exists a. apply String.eqb_eq in Heq.
    split; [done | by apply list_elem_of_In].
  - intros (a & -> & Hin). exists a.
    split; [by apply list_elem_of_In | apply String.eqb_refl].
Qed.

Lemma not_selected_iff (x : string) (l : list SelectedApp) :
  existsb (fun selectedApp => String.eqb (id selectedApp) x) l = false
  ↔ x ∉ id <$> l.
Proof.
  rewrite <- selected_iff.
  destruct (existsb _ l); split; try done.
Qed.

Lemma map_other_ids (f : SelectedApp → SelectedApp) (x : string)
    (l : list SelectedApp) :
  x ∉ id <$> l →
  map (fun a => if String.eqb (id a) x then f a else a) l = l.
Proof.
  induction l as [|a l IH]; [done|]. simpl.
  intros Hnot. apply not_elem_of_cons in Hnot as [Hne Hnot].
  destruct (String.eqb_spec (id a) x) as [Heq|_]; [congruence|].
  by rewrite IH.
Qed.

Lemma filter_other_ids (x : string) (l : list SelectedApp) :
  x ∉ id <$> l →
  List.filter (fun app => negb (String.eqb (id app) x)) l = l.
Proof.
  induction l as [|a l IH]; [done|]. simpl.
  intros Hnot. apply not_elem_of_cons in Hnot as [Hne Hnot].
  destruct (String.eqb_spec (id a) x) as [Heq|_]; [congruence|].
  simpl. by rewrite IH.
Qed.

Lemma Forall_map_keep (P : SelectedApp → Prop) (f : SelectedApp → SelectedApp)
    (l : list SelectedApp) :
  (∀ a, P a → P (f a)) → Forall P l → Forall P (map f l).
Proof.
  intros Hf Hl. induction Hl as [|a l Ha Hl IH]; simpl; constructor; auto.
Qed.

Lemma Forall_filter_keep (P : SelectedApp → Prop) (f : SelectedApp → bool)
    (l : list SelectedApp) :
  Forall P l → Forall P (List.filter f l).
Proof.
  intros Hl. induction Hl as [|a l Ha Hl IH]; simpl; [constructor|].
  destruct (f a); [constructor|]; auto.
Qed.

Lemma deploy_loop_keeps (P : SelectedApp → Prop)
    (api : nat → UploadRequest → response) (n : nat)
    (queue updatedApps : list SelectedApp) :
  (∀ r a, P a → P (deployApp r a)) →
  (∀ a, P a → P (with_status Deploying a)) →
  Forall P queue → Forall P updatedApps →
  Forall P (deploy_loop api n queue updatedApps).2.
Proof.
  intros Hdeploy Hstatus Hq. revert n updatedApps.
  induction Hq as [|app rest Happ Hrest IH]; intros n updatedApps Hu; [done|].
  simpl.
  match goal with
  | |- context [deploy_loop api (S n) rest ?u] =>
      specialize (IH (S n) u); destruct (deploy_loop api (S n) rest u)
  end.
  simpl in *. apply IH.
  apply Forall_map_keep; [|apply Forall_map_keep; auto].
  - intros a Ha. destruct (String.eqb _ _); auto.
  - intros a Ha. destruct (String.eqb _ _); auto.
Qed.

(** With distinct ids, the loop replaces each queued app in place. *)
Lemma deploy_loop_in_place (api : nat → UploadRequest → response)
    (l : list SelectedApp) (n : nat) (pre : list SelectedApp) :
  distinct_ids (pre ++ l) →
  (deploy_loop api n (List.filter isLocked l) (pre ++ l)).2
  = pre ++ deploy_locked api n l.
Proof.
  revert n pre. induction l as [|a l IH]; intros n pre Hdistinct; [done|].
  simpl. destruct (isLocked a) eqn:Hlocked.
  - simpl.
    assert ((id a ∉ id <$> pre) ∧ (id a ∉ id <$> l)) as [Hpre Hl].
    { unfold distinct_ids in Hdistinct. rewrite fmap_app in Hdistinct.
      apply NoDup_app in Hdistinct as (_ & Hdisj & Hnd).
      rewrite fmap_cons in Hnd. apply NoDup_cons in Hnd as [Hl _].
      split; [|done]. intros Hin. apply (Hdisj _ Hin). rewrite fmap_cons.
      apply elem_of_cons. by left. }
    assert (id (deployApp (api n) a) = id a) as Hid
      by (unfold deployApp; by destruct (api n (payload a))).
    rewrite Hid.
    assert (map (fun x => if String.eqb (id x) (id a)
                          then deployApp (api n) a else x)
              (map (fun x => if String.eqb (id x) (id a)
                             then with_status Deploying x else x)
                 (pre ++ a :: l))
            = (pre ++ [deployApp (api n) a]) ++ l) as ->.
    { rewrite !List.map_app. simpl. rewrite String.eqb_refl. simpl.
      rewrite String.eqb_refl.
      rewrite !(map_other_ids _ (id a) pre Hpre).
      rewrite !(map_other_ids _ (id a) l Hl).
      by rewrite <- app_assoc. }
    specialize (IH (S n) (pre ++ [deployApp (api n) a])).
    destruct (deploy_loop api (S n) (List.filter isLocked l)
                ((pre ++ [deployApp (api n) a]) ++ l)) as [sets final].
    simpl in *. rewrite IH; [by rewrite <- app_assoc|].
    unfold distinct_ids in *.
    rewrite !fmap_app, !fmap_cons, Hid, <- app_assoc in *. exact Hdistinct.
  - replace (pre ++ a :: l) with ((pre ++ [a]) ++ l)
      by (by rewrite <- app_assoc).
    rewrite IH; [by rewrite <- app_assoc|].
    by rewrite <- app_assoc.
Qed.

Lemma deploy_locked_none (api : nat → UploadRequest → response) (n : nat)
    (l : list SelectedApp) :
  List.filter isLocked l = [] → deploy_locked api n l = l.
Proof.
  induction l as [|a l IH]; [done|]. simpl.
  destruct (isLocked a); [done|]. intros H. by rewrite IH.
Qed.

(** After the deployment every locked app has succeeded or failed. *)
Lemma deploy_locked_counts (api : nat → UploadRequest → response) (n : nat)
    (l : list SelectedApp) :
  let locked := List.filter isLocked (deploy_locked api n l) in
  length locked = length (List.filter isLocked l)
  ∧ length (List.filter
              (fun app => has_status Pending app || has_status Deploying app)
              locked) = 0
  ∧ length (List.filter (has_status Success) locked)
    + length (List.filter (has_status Failed) locked)
    = length locked.
Proof.
  revert n. induction l as [|a l IH]; intros n; [done|].
  simpl. destruct (isLocked a) eqn:Hlocked.
  - destruct (IH (S n)) as (H1 & H2 & H3).
    set (d := deployApp (api n) a).
    assert (isLocked d = true
            ∧ has_status Pending d = false ∧ has_status Deploying d = false
            ∧ (has_status Success d = true ∧ has_status Failed d = false
               ∨ has_status Success d = false ∧ has_status Failed d = true))
      as (Hl & Hp & Hd & Hsf).
    { subst d. unfold deployApp. destruct (api n (payload a)); simpl;
        rewrite Hlocked; unfold has_status; simpl; auto 6. }
    simpl. rewrite Hl. simpl. rewrite Hp, Hd. simpl.
    destruct Hsf as [[-> ->] | [-> ->]]; simpl; simpl in *; lia.
  - destruct (IH n) as (H1 & H2 & H3). simpl. rewrite Hlocked. done.
Qed.

End WingetFacts.

Section WingetMore.

Import Winget.

Lemma deployApps_shown (api : nat → UploadRequest → response)
    (l : list SelectedApp) :
  distinct_ids l → shown (deployApps api l) = deploy_locked api 0 l.
Proof.
  intros Hdistinct. unfold deployApps.
  destruct (Nat.eqb_spec (length (List.filter isLocked l)) 0) as [Hnone|Hsome].
  - simpl. symmetry. apply deploy_locked_none. by apply nil_length_inv.
  - pose proof (deploy_loop_in_place api l 0 [] Hdistinct) as Hloop.
    simpl in Hloop.
    destruct (deploy_loop api 0 (List.filter isLocked l) l) as [sets final].
    done.
Qed.

Lemma append_nonempty (a b : string) (c : ascii) :
  String.eqb (a +:+ String c b) "" = false.
Proof. by destruct a. Qed.

Lemma leading_word_spec (v : string) :
  (∃ rest, v = leading_word v +:+ rest)
  ∧ NextProcesses.all_chars (fun c => negb (NextProcesses.is_space c))
      (leading_word v) = true.
Proof.
  induction v as [|c v [[rest IH1] IH2]]; simpl.
  - split; [by exists "" | done].
  - destruct (NextProcesses.is_space c) eqn:Hc.
    + split; [by exists (String c v) | done].
    + split.
      * exists rest. rewrite append_cons. by f_equal.
      * simpl. by rewrite Hc.
Qed.

Lemma before_blank_spec (v : string) :
  (∃ rest, v = before_blank v +:+ rest)
  ∧ NextProcesses.all_chars (fun c => negb (nat_of_ascii c =? 32))
      (before_blank v) = true.
Proof.
  induction v as [|c v [[rest IH1] IH2]]; simpl.
  - split; [by exists "" | done].
  - destruct (nat_of_ascii c =? 32) eqn:Hc.
    + split; [by exists (String c v) | done].
    + split.
      * exists rest. rewrite append_cons. by f_equal.
      * simpl. by rewrite Hc.
Qed.

Lemma no_space_no_blank (s : string) :
  NextProcesses.all_chars (fun c => negb (NextProcesses.is_space c)) s = true →
  NextProcesses.all_chars (fun c => negb (nat_of_ascii c =? 32)) s = true.
Proof.
  induction s as [|c s IH]; [done|]. simpl.
  intros [Hc Hs]%andb_true_iff. rewrite (IH Hs), andb_true_r.
  unfold NextProcesses.is_space in Hc.
  destruct (nat_of_ascii c =? 32); [|done].
  by rewrite orb_true_r in Hc.
Qed.

Lemma selection_has_distinct_ids : distinct_ids MoreFixtures.selection.
Proof.
  unfold distinct_ids. vm_compute.
  apply NoDup_cons. split; [|apply NoDup_singleton].
  intros H. apply list_elem_of_singleton in H. discriminate H.
Defined.

End WingetMore.

(** X21: [addApp] never selects an app twice. A selection without
    duplicate ids stays without duplicates, adding the same app again
    changes nothing, and the app is in the selection afterwards. *)
Theorem addApp_keeps_ids_distinct
    (app : Winget.WingetApp) (l : list Winget.SelectedApp) :
  Winget.distinct_ids l →
  Winget.distinct_ids (Winget.addApp app l)
  ∧ Winget.addApp app (Winget.addApp app l) = Winget.addApp app l
  ∧ Winget.w_id app ∈ Winget.id <$> Winget.addApp app l.
Proof.
  intros Hdistinct. unfold Winget.addApp at 1 3 4 5.
  destruct (existsb _ l) eqn:Hsel.
  - split; [done|]. split; [|by apply selected_iff].
    unfold Winget.addApp. by rewrite Hsel.
  - apply not_selected_iff in Hsel.
    assert (Winget.w_id app
            ∈ Winget.id <$>
              l ++ [{| Winget.id := Winget.w_id app;
                       Winget.name := Winget.w_name app;
                       Winget.publisher := Winget.w_publisher app;
                       Winget.version := Winget.w_version app;
                       Winget.description := Winget.w_description app;
                       Winget.customDescription := Some (Winget.w_description app);
                       Winget.customPublisher := Some (Winget.w_publisher app);
                       Winget.isLocked := false; Winget.isConfigured := false;
                       Winget.isExpanded := false;
                       Winget.deploymentStatus := None; Winget.appId := None;
                       Winget.errorMessage := None |}]) as Hin.
    { rewrite fmap_app. apply elem_of_app. right. simpl.
      apply elem_of_cons. by left. }
    split; [|split; [|exact Hin]].
    + unfold Winget.distinct_ids. rewrite fmap_app. apply NoDup_app.
      split; [done|]. split; [|apply NoDup_singleton].
      intros x Hx Hnew. simpl in Hnew.
      apply list_elem_of_singleton in Hnew. by subst.
    + unfold Winget.addApp. apply selected_iff in Hin. by rewrite Hin.
Qed.

Lemma addApp_keeps_ids_distinct_witness :
  Winget.distinct_ids MoreFixtures.selection
  ∧ Winget.distinct_ids (Winget.addApp MoreFixtures.vlc MoreFixtures.selection)
  ∧ Winget.addApp MoreFixtures.vlc
      (Winget.addApp MoreFixtures.vlc MoreFixtures.selection)
    = Winget.addApp MoreFixtures.vlc MoreFixtures.selection
  ∧ Winget.w_id MoreFixtures.vlc
    ∈ Winget.id <$> Winget.addApp MoreFixtures.vlc MoreFixtures.selection.
Proof.
  pose proof selection_has_distinct_ids as H.
  split; [exact H|].
  exact (addApp_keeps_ids_distinct MoreFixtures.vlc MoreFixtures.selection H).
Defined.

(** X22: removing an app that was just added to a selection which did
    not hold it gives the selection back, and after [removeApp] no app
    with that id is left in any selection. *)
Theorem removeApp_undoes_addApp
    (app : Winget.WingetApp) (l : list Winget.SelectedApp) :
  Winget.w_id app ∉ Winget.id <$> l →
  Winget.removeApp (Winget.w_id app) (Winget.addApp app l) = l
  ∧ ∀ l', Winget.w_id app ∉ Winget.id <$> Winget.removeApp (Winget.w_id app) l'.
Proof.
  intros Hnot. split.
  - unfold Winget.addApp, Winget.removeApp.
    rewrite (proj2 (not_selected_iff _ _) Hnot).
    rewrite List.filter_app, (filter_other_ids _ _ Hnot). simpl.
    rewrite String.eqb_refl. simpl. apply app_nil_r.
  - intros l' Hin. apply list_elem_of_fmap in Hin as (a & Heq & Ha).
    unfold Winget.removeApp in Ha.
    apply list_elem_of_In, filter_In in Ha as [_ Hne].
    rewrite <- Heq, String.eqb_refl in Hne. done.
Qed.

Lemma removeApp_undoes_addApp_witness :
  let l := Winget.addApp MoreFixtures.firefox [] in
  (Winget.w_id MoreFixtures.vlc ∉ Winget.id <$> l)
  ∧ Winget.removeApp (Winget.w_id MoreFixtures.vlc)
      (Winget.addApp MoreFixtures.vlc l) = l
  ∧ ∀ l', Winget.w_id MoreFixtures.vlc
          ∉ Winget.id <$> Winget.removeApp (Winget.w_id MoreFixtures.vlc) l'.
Proof.
  intros l.
  assert (Winget.w_id MoreFixtures.vlc ∉ Winget.id <$> l) as H.
  { apply not_selected_iff. reflexivity. }
  split; [exact H|].
  exact (removeApp_undoes_addApp MoreFixtures.vlc l H).
Defined.

(** X23: a locked app never has its configuration panel open. Every
    operation of the page keeps this true of the whole selection: adding,
    removing, editing a field, toggling a panel (which does nothing to a
    locked app), toggling the lock (which closes the panel) and deploying. *)
Theorem locked_apps_stay_closed
    (l : list Winget.SelectedApp) (app : Winget.WingetApp) (x value : string)
    (field : Winget.config_field)
    (api : nat → Winget.UploadRequest → Winget.response) :
  Winget.locked_closed l →
  Winget.locked_closed (Winget.addApp app l)
  ∧ Winget.locked_closed (Winget.removeApp x l)
  ∧ Winget.locked_closed (Winget.updateAppConfig x field value l)
  ∧ Winget.locked_closed (Winget.toggleAppExpansion x l)
  ∧ Winget.locked_closed (Winget.toggleLockApp x l)
  ∧ Winget.locked_closed (Winget.shown (Winget.deployApps api l)).
Proof.
  intros Hl. unfold Winget.locked_closed in *.
  repeat split.
  - unfold Winget.addApp. destruct (existsb _ l); [done|].
    apply Forall_app. split; [done|]. by repeat constructor.
  - by apply Forall_filter_keep.
  - apply Forall_map_keep; [|done]. intros a Ha.
    by destruct (String.eqb _ _).
  - apply Forall_map_keep; [|done]. intros a Ha.
    destruct (String.eqb _ _ && negb (Winget.isLocked a)) eqn:Hc; [|done].
    simpl. apply andb_true_iff in Hc as [_ Hc]. apply negb_true_iff in Hc.
    intros Hlocked. congruence.
  - apply Forall_map_keep; [|done]. intros a Ha.
    by destruct (String.eqb _ _).
  - unfold Winget.deployApps.
    destruct (length (List.filter Winget.isLocked l) =? 0); [done|].
    pose proof (deploy_loop_keeps
                  (fun a => Winget.isLocked a = true → Winget.isExpanded a = false)
                  api 0 (List.filter Winget.isLocked l) l) as Hloop.
    destruct (Winget.deploy_loop api 0 (List.filter Winget.isLocked l) l)
      as [sets final].
    simpl in *. apply Hloop; [| done | by apply Forall_filter_keep | done].
    intros r a Ha. unfold Winget.deployApp. by destruct (r (Winget.payload a)).
Qed.

Lemma locked_apps_stay_closed_witness :
  Winget.locked_closed MoreFixtures.selection
  ∧ Winget.locked_closed
      (Winget.toggleAppExpansion "Mozilla.Firefox" MoreFixtures.selection)
  ∧ Winget.locked_closed
      (Winget.toggleLockApp "VideoLAN.VLC" MoreFixtures.selection).
Proof.
  assert (Winget.locked_closed MoreFixtures.selection) as H.
  { unfold Winget.locked_closed. repeat constructor; simpl; done. }
  split; [exact H|].
  pose proof (locked_apps_stay_closed MoreFixtures.selection MoreFixtures.vlc
                "Mozilla.Firefox" "" Winget.CustomPublisher
                MoreFixtures.accepts_all H) as (_ & _ & _ & H4 & _).
  pose proof (locked_apps_stay_closed MoreFixtures.selection MoreFixtures.vlc
                "VideoLAN.VLC" "" Winget.CustomPublisher
                MoreFixtures.accepts_all H) as (_ & _ & _ & _ & H5 & _).
  split; assumption.
Defined.

(** X24: with distinct ids, [deployApps] deploys each locked app once,
    in the order of the selection, and puts the result in the place of the
    app; apps that are not locked are left as they are and the selection
    keeps its length. With no locked app it only raises the alert. *)
Theorem deployApps_deploys_locked_apps_in_place
    (api : nat → Winget.UploadRequest → Winget.response)
    (l : list Winget.SelectedApp) :
  Winget.distinct_ids l →
  let d := Winget.deployApps api l in
  Winget.shown d = Winget.deploy_locked api 0 l
  ∧ length (Winget.shown d) = length l
  ∧ (List.filter Winget.isLocked l = [] →
     Winget.alerted d = true ∧ Winget.sets d = [] ∧ Winget.shown d = l).
Proof.
  intros Hdistinct d. subst d. split; [by apply deployApps_shown|]. split.
  - rewrite deployApps_shown by done. generalize 0.
    induction l as [|a l IH]; intros n; [done|]. simpl.
    apply NoDup_cons in Hdistinct as [_ Hdistinct].
    destruct (Winget.isLocked a); simpl; by rewrite IH.
  - intros Hnone. unfold Winget.deployApps. by rewrite Hnone.
Qed.

Lemma deployApps_deploys_locked_apps_in_place_witness :
  let d := Winget.deployApps MoreFixtures.accepts_all MoreFixtures.selection in
  Winget.distinct_ids MoreFixtures.selection
  ∧ Winget.shown d
    = Winget.deploy_locked MoreFixtures.accepts_all 0 MoreFixtures.selection
  ∧ length (Winget.shown d) = length MoreFixtures.selection.
Proof.
  intros d.
  pose proof selection_has_distinct_ids as H.
  split; [exact H|].
  pose proof (deployApps_deploys_locked_apps_in_place MoreFixtures.accepts_all
                MoreFixtures.selection H) as (H1 & H2 & _).
  split; assumption.
Defined.

(** X25: after [deployApps], with distinct ids, the statistics show no
    app as pending: every locked app counts as successful or as failed,
    and the total is the number of locked apps. *)
Theorem after_deployment_no_app_is_pending
    (api : nat → Winget.UploadRequest → Winget.response)
    (l : list Winget.SelectedApp) :
  Winget.distinct_ids l →
  let st := Winget.getDeploymentStats (Winget.shown (Winget.deployApps api l)) in
  Winget.pending st = 0
  ∧ Winget.successful st + Winget.failed st = Winget.total st
  ∧ Winget.total st = length (List.filter Winget.isLocked l).
Proof.
  intros Hdistinct st. subst st. rewrite deployApps_shown by done.
  destruct (deploy_locked_counts api 0 l) as (H1 & H2 & H3).
  unfold Winget.getDeploymentStats. simpl. done.
Qed.

Lemma after_deployment_no_app_is_pending_witness :
  let st :=
    Winget.getDeploymentStats
      (Winget.shown
         (Winget.deployApps MoreFixtures.accepts_all MoreFixtures.selection)) in
  Winget.distinct_ids MoreFixtures.selection
  ∧ Winget.pending st = 0
  ∧ Winget.successful st + Winget.failed st = Winget.total st
  ∧ Winget.total st
    = length (List.filter Winget.isLocked MoreFixtures.selection).
Proof.
  intros st.
  pose proof selection_has_distinct_ids as H.
  split; [exact H|].
  exact (after_deployment_no_app_is_pending MoreFixtures.accepts_all
           MoreFixtures.selection H).
Defined.

(** X26: an app taken from the search results and locked without any
    edit counts as configured, because the defaults of the search mapping
    fill both custom fields: the description "name (id)" and the publisher
    "Unknown Publisher". *)
Theorem unedited_search_result_is_configured
    (item : Winget.ApiSearchResult) (l : list Winget.SelectedApp) :
  Winget.Id item ∉ Winget.id <$> l →
  Winget.toggleLockApp (Winget.Id item)
    (Winget.addApp (Winget.toWingetApp item) l)
  = l ++
    [{| Winget.id := Winget.Id item; Winget.name := Winget.Name item;
        Winget.publisher := "Unknown Publisher";
        Winget.version := Winget.version_of (Winget.Version item);
        Winget.description :=
          Winget.Name item +:+ " (" +:+ Winget.Id item +:+ ")";
        Winget.customDescription :=
          Some (Winget.Name item +:+ " (" +:+ Winget.Id item +:+ ")");
        Winget.customPublisher := Some "Unknown Publisher";
        Winget.isLocked := true; Winget.isConfigured := true;
        Winget.isExpanded := false;
        Winget.deploymentStatus := None; Winget.appId := None;
        Winget.errorMessage := None |}].
Proof.
  intros Hnot. unfold Winget.addApp, Winget.toggleLockApp.
  cbn [Winget.toWingetApp Winget.w_id].
  rewrite (proj2 (not_selected_iff _ _) Hnot).
  rewrite List.map_app, (map_other_ids _ _ l Hnot). simpl.
  rewrite String.eqb_refl. simpl.
  change (Winget.Name item +:+ " (" +:+ Winget.Id item +:+ ")")
    with (Winget.Name item +:+ String " " ("(" +:+ Winget.Id item +:+ ")")).
  by rewrite append_nonempty.
Qed.

Lemma unedited_search_result_is_configured_witness :
  let item :=
    {| Winget.Name := "7-Zip"; Winget.Id := "7zip.7zip";
       Winget.Version := "24.07 Tag: archiver"; Winget.Source := "winget" |} in
  (Winget.Id item ∉ Winget.id <$> MoreFixtures.selection)
  ∧ ∃ app,
      last (Winget.toggleLockApp (Winget.Id item)
              (Winget.addApp (Winget.toWingetApp item) MoreFixtures.selection))
      = Some app
      ∧ Winget.isConfigured app = true
      ∧ Winget.version app = "24.07".
Proof.
  intros item.
  assert (Winget.Id item ∉ Winget.id <$> MoreFixtures.selection) as H.
  { apply not_selected_iff. reflexivity. }
  split; [exact H|].
  rewrite (unedited_search_result_is_configured item MoreFixtures.selection H).
  rewrite last_snoc. eexists. split; [reflexivity|]. split; reflexivity.
Defined.

(** X27: the version shown for a search result is the beginning of the
    version string the API sent and contains no blank; when that string
    starts with a character that is not white space, it contains no white
    space at all. *)
Theorem shown_version_is_leading_part_without_blank (v : string) :
  (∃ rest, v = Winget.version_of v +:+ rest)
  ∧ NextProcesses.all_chars (fun c => negb (nat_of_ascii c =? 32))
      (Winget.version_of v) = true
  ∧ (Winget.leading_word v ≠ "" →
     NextProcesses.all_chars (fun c => negb (NextProcesses.is_space c))
       (Winget.version_of v) = true).
Proof.
  destruct (leading_word_spec v) as [Hpre Hword].
  destruct (before_blank_spec v) as [Hpre' Hblank].
  unfold Winget.version_of.
  destruct (Winget.leading_word v) as [|c word] eqn:Hlead.
  - split; [done|]. split; [done|]. done.
  - split; [done|]. split; [by apply no_space_no_blank|]. done.
Qed.

(** X28: when [api.py] is at none of the candidate paths, a [login] with
    all three fields filled in fails with the message of the verification
    error path; the renderer, when there is a window, is told once that
    the API module could not be located, the store is untouched and no
    worker is spawned. *)
Theorem login_without_api_script_reports_error
    (w : Main.world) (c : credentials) (s : Main.state) :
  truthy (clientId c) = true → truthy (clientSecret c) = true →
  truthy (tenantId c) = true →
  List.find (existsSync (Main.fs w)) (possibleApiPaths (Main.fs w)) = None →
  let r := Main.login w c s in
  r.2 = Some (Main.failure
                "An error occurred during credential verification. Please try again.")
  ∧ Main.sent r.1
    = Main.sent s
      ++ send (Main.mainWindow s)
           (ApiError "Could not locate the API module. Please check your installation.")
  ∧ Main.store r.1 = Main.store s
  ∧ length (Main.processes r.1) = length (Main.processes s).
Proof.
  intros H1 H2 H3 Hnone r. subst r. unfold Main.login.
  rewrite H1, H2, H3. simpl.
  unfold Verifier.verifyCredentials, Verifier.start, findApiPath.
  rewrite Hnone. simpl.
  assert (Main.mainWindow (Main.kill_existing s) = Main.mainWindow s) as ->
    by (unfold Main.kill_existing; by destruct (Main.pythonProcess s)).
  assert (Main.sent (Main.kill_existing s) = Main.sent s) as ->
    by (unfold Main.kill_existing; by destruct (Main.pythonProcess s)).
  split; [done|]. split; [done|].
  split; [apply store_kill_existing | apply length_kill_existing].
Qed.

Lemma login_without_api_script_reports_error_witness :
  let w :=
    {| Main.fs := Fixtures.fs_missing; Main.node := Fixtures.node;
       Main.verification := [];
       Main.bindable := fun _ => true; Main.fuel := 1 |} in
  let r := Main.login w Fixtures.creds Fixtures.booted in
  (truthy (clientId Fixtures.creds) = true
   ∧ truthy (clientSecret Fixtures.creds) = true
   ∧ truthy (tenantId Fixtures.creds) = true
   ∧ List.find (existsSync (Main.fs w)) (possibleApiPaths (Main.fs w)) = None)
  ∧ r.2 = Some (Main.failure
                  "An error occurred during credential verification. Please try again.")
  ∧ Main.sent r.1
    = Main.sent Fixtures.booted
      ++ send (Main.mainWindow Fixtures.booted)
           (ApiError "Could not locate the API module. Please check your installation.")
  ∧ Main.store r.1 = Main.store Fixtures.booted
  ∧ length (Main.processes r.1) = length (Main.processes Fixtures.booted).
Proof.
  intros w r.
  assert (truthy (clientId Fixtures.creds) = true) as H1 by reflexivity.
  assert (truthy (clientSecret Fixtures.creds) = true) as H2 by reflexivity.
  assert (truthy (tenantId Fixtures.creds) = true) as H3 by reflexivity.
  assert (List.find (existsSync (Main.fs w)) (possibleApiPaths (Main.fs w))
          = None) as H4 by reflexivity.
  split; [repeat split; assumption|].
  exact (login_without_api_script_reports_error w Fixtures.creds
           Fixtures.booted H1 H2 H3 H4).
Defined.
